(** * NovaSearch: the orchestration engine of [nova_search.py]

    A shallow embedding of the class [NovaSearch] (query sanitizer, cache
    store, token-bucket rate limiter, circuit breaker and the retry loop of
    [search]) and the properties of its specification.

    Conventions of the embedding:
    - a Python [str] is the list of its Unicode code points ([N]);
    - a Python [float] or [int] holding seconds or tokens is an exact
      rational ([Q]); counters are [nat];
    - dictionaries keyed by provider name are [gmap]s; the cache, whose
      insertion order is observable through the stable sort of
      [_evict_cache], is an association list with unique keys;
    - the instance attributes and the outside world (system clock, provider
      back ends, sleeping, the snapshot file) are threaded explicitly. *)

From Stdlib Require Import QArith Lqa Lia Permutation Sorted.
From stdpp Require Import base option list gmap strings.

(** ** Python values *)

(** Strings are sequences of code points. *)
Abbreviation char := N (only parsing).
Abbreviation str := (list N) (only parsing).

(** A literal of the source, as a [str]. *)
Definition py (s : string) : str :=
  map Ascii.N_of_ascii (String.list_ascii_of_string s).

(** [not s] for a string. *)
Definition str_falsy (s : str) : bool :=
  match s with [] => true | _ => false end.

(** [s.replace(c, '')] for a one-character [c]. *)
Definition str_remove (c : char) (s : str) : str :=
  filter (fun x => x ≠ c) s.

(** The code points that [str.strip()] treats as whitespace. *)
Definition isspace (c : char) : bool :=
  ((9 <=? c) && (c <=? 13) || (28 <=? c) && (c <=? 32)
   || (c =? 133) || (c =? 160) || (c =? 5760)
   || (8192 <=? c) && (c <=? 8202)
   || (c =? 8232) || (c =? 8233) || (c =? 8239) || (c =? 8287)
   || (c =? 12288))%N.

Fixpoint lstrip (s : str) : str :=
  match s with
  | [] => []
  | c :: s' => if isspace c then lstrip s' else s
  end.

Definition rstrip (s : str) : str := rev (lstrip (rev s)).

(** [s.strip()] *)
Definition strip (s : str) : str := rstrip (lstrip s).

(** [prefix_of p s] holds when [s] starts with [p]. *)
Fixpoint prefix_of (p s : str) : bool :=
  match p, s with
  | [], _ => true
  | _ :: _, [] => false
  | a :: p', b :: s' => (a =? b)%N && prefix_of p' s'
  end.

(** [kw in s] *)
Fixpoint str_contains (kw s : str) : bool :=
  prefix_of kw s ||
  match s with
  | [] => false
  | _ :: s' => str_contains kw s'
  end.

(** Exceptions caught by [except Exception]: class name and message. *)
Record exn := Exn { exn_class : str; exn_msg : str }.

(** The result of evaluating code that may raise. *)
Inductive outcome (A : Type) :=
| Return (a : A)
| Raise (e : exn).
Arguments Return {A} a.
Arguments Raise {A} e.

(** [str(last_error)] where [last_error] is [None] or an exception. *)
Definition str_of_error (e : option exn) : str :=
  match e with
  | None => py "None"
  | Some e => exn_msg e
  end.

(** ** Configuration ([_load_config], [__init__]) *)

Definition max_query_length : nat := 500.
Definition max_cache_size : nat := 1000.
Definition primary : str := py "brave".
Definition fallback : list str := [py "google"; py "duckduckgo"].

(** ** Query sanitizer *)

(** The list [dangerous] of the source, by code point: less-than,
    greater-than, double quote, apostrophe, ampersand, semicolon, vertical
    bar, backquote and dollar. *)
Definition dangerous : list char :=
  [60; 62; 34; 39; 38; 59; 124; 96; 36]%N.

Definition _sanitize_query (query : str) : str :=
  if str_falsy query then []
  else
    let query := take max_query_length query in
    let query := fold_left (fun q c => str_remove c q) dangerous query in
    strip query.

(** ** Numbers *)

(** Comparisons of Python numbers, as booleans. *)
Definition Qlt_bool (x y : Q) : bool := negb (Qle_bool y x).

(** [min(a, b)]: the first argument unless the second is smaller. *)
Definition py_min (a b : Q) : Q := if Qlt_bool b a then b else a.

(** ** Dictionaries in insertion order *)

Section Dict.
Context {A : Type}.

(** [d[k] = v]: an existing key keeps its place, a new one goes last. *)
Fixpoint dict_set (k : str) (v : A) (d : list (str * A)) : list (str * A) :=
  match d with
  | [] => [(k, v)]
  | (k', v') :: d' =>
      if decide (k = k') then (k, v) :: d' else (k', v') :: dict_set k v d'
  end.

(** [d.get(k)] *)
Fixpoint dict_get (k : str) (d : list (str * A)) : option A :=
  match d with
  | [] => None
  | (k', v') :: d' => if decide (k = k') then Some v' else dict_get k d'
  end.

(** [dict(items)] *)
Definition dict_of_items (items : list (str * A)) : list (str * A) :=
  fold_left (λ d kv, dict_set kv.1 kv.2 d) items [].

(** [sorted(items, key=key, reverse=True)]: the stable sort into
    descending order of [key]; items with equal keys keep their order. *)
Fixpoint insert_desc (key : A → Q) (x : A) (l : list A) : list A :=
  match l with
  | [] => [x]
  | y :: l' =>
      if Qlt_bool (key x) (key y) then y :: insert_desc key x l' else x :: l
  end.

Definition sorted_desc (key : A → Q) (l : list A) : list A :=
  foldr (insert_desc key) [] l.
End Dict.

(** ** Data model *)

Record ResultItem := {
  r_title : str;
  r_url : str;
  r_description : str;
  r_provider : str }.

(** A value of [self.cache]; [timestamp] is read with a default. *)
Record CacheEntry := {
  e_results : list ResultItem;
  e_provider : str;
  e_timestamp : option Q;
  e_type : str }.

(** A value of [self.rate_limit]. *)
Record Bucket := {
  b_tokens : Q;
  b_max : Q;
  b_refill_rate : Q }.

(** A value of [self.provider_stats]. *)
Record Stats := {
  errors : nat;
  circuit_open : bool;
  circuit_open_time : option Q }.

(** The attributes of a [NovaSearch] instance that [search] uses;
    [_last_refill] is [None] until [_check_rate_limit] creates it. *)
Record NovaSearch := {
  cache : list (str * CacheEntry);
  provider_stats : gmap str Stats;
  rate_limit : gmap str Bucket;
  _last_refill : option (gmap str Q) }.

(** The rate table of [__init__]. *)
Definition initial_rate_limit : gmap str Bucket :=
  <[py "brave" := {| b_tokens := 60; b_max := 60; b_refill_rate := 1 |}]>
  (<[py "google" := {| b_tokens := 60; b_max := 60; b_refill_rate := 1 |}]>
  (<[py "duckduckgo" := {| b_tokens := 30; b_max := 30; b_refill_rate := 1 # 2 |}]> ∅)).

(** The three shapes of the dictionary returned by [search]. *)
Inductive SearchResult :=
| Rejected (error : str) (results : list ResultItem)
| Found (results : list ResultItem) (provider : str) (cached : bool) (query : str)
| Exhausted (error : str) (query : str) (results : list ResultItem).

(** ** The outside world *)

(** What the instance does to its collaborators, in order. *)
Inductive event :=
| EvCacheLookup (key : str)
| EvCacheStore (key : str)
| EvRateCheck (p : str)
| EvHealthCheck (p : str)
| EvRecordError (p : str)
| EvAdapter (p : str) (query search_type : str)
| EvSleep (seconds : Q)
| EvSaveDisk.

(** Library functions and the environment of one run:
    - [md5 s]: the bytes of [hashlib.md5(s.encode()).digest()];
    - [lower s]: [s.lower()];
    - [format_percent fmt n]: [fmt % n] for a format that holds a [%];
    - [clock i]: the value of the [i]-th call of [time.time()];
    - [_search_brave i q t] and its siblings: what the adapter does when
      it is the [i]-th adapter call of the run. *)
Record Env := {
  md5 : str → list N;
  lower : str → str;
  format_percent : str → Z → outcome str;
  clock : nat → Q;
  _search_brave : nat → str → str → outcome (list ResultItem);
  _search_google : nat → str → str → outcome (list ResultItem);
  _search_duckduckgo : nat → str → str → outcome (list ResultItem) }.

(** The instance, the number of clock readings and adapter calls made so
    far, and the trace of interactions. *)
Record World := {
  self : NovaSearch;
  ticks : nat;
  calls : nat;
  trace : list event }.

(** State-passing computations over the world. *)
Definition M (A : Type) : Type := World → A * World.

Definition ret {A} (a : A) : M A := λ w, (a, w).

Definition bind {A B} (m : M A) (k : A → M B) : M B :=
  λ w, let '(a, w') := m w in k a w'.

Notation "'let*' x := m 'in' k" := (bind m (λ x, k))
  (at level 10, x name, m at level 100, k at level 200, only parsing).

Definition get_self : M NovaSearch := λ w, (self w, w).

Definition put_self (s : NovaSearch) : M unit :=
  λ w, (tt, {| self := s; ticks := ticks w; calls := calls w; trace := trace w |}).

Definition emit (e : event) : M unit :=
  λ w, (tt, {| self := self w; ticks := ticks w; calls := calls w;
               trace := trace w ++ [e] |}).

Definition next_call : M nat :=
  λ w, (calls w, {| self := self w; ticks := ticks w; calls := S (calls w);
                    trace := trace w |}).

Definition set_cache (c : list (str * CacheEntry)) (s : NovaSearch) : NovaSearch :=
  {| cache := c; provider_stats := provider_stats s;
     rate_limit := rate_limit s; _last_refill := _last_refill s |}.

Definition set_provider_stats (ps : gmap str Stats) (s : NovaSearch) : NovaSearch :=
  {| cache := cache s; provider_stats := ps;
     rate_limit := rate_limit s; _last_refill := _last_refill s |}.

Definition set_rate (rl : gmap str Bucket) (lr : gmap str Q) (s : NovaSearch) : NovaSearch :=
  {| cache := cache s; provider_stats := provider_stats s;
     rate_limit := rl; _last_refill := Some lr |}.

(** ** The components of [NovaSearch], over an environment *)

Section Model.
Variable E : Env.

(** [time.time()] *)
Definition time_time : M Q :=
  λ w, (clock E (ticks w),
        {| self := self w; ticks := S (ticks w); calls := calls w;
           trace := trace w |}).

(** *** Cache store *)

(** The two hexadecimal digits of a byte, as characters. *)
Definition hex_digit (n : N) : N :=
  (if n <? 10 then 48 + n else 87 + n)%N.

Definition hexdigest (bytes : list N) : str :=
  flat_map (λ b, [hex_digit ((b / 16) mod 16); hex_digit (b mod 16)])%N bytes.

Definition _get_cache_key (query search_type : str) : str :=
  let key_str := search_type ++ py ":" ++ lower E query in
  hexdigest (md5 E key_str).

Definition trending_kw : list str :=
  [py "news"; py "today"; py "latest"; py "breaking"; py "update";
   py "2024"; py "2025"; py "2026"].

Definition trans_kw : list str :=
  [py "buy"; py "price"; py "cost"; py "discount"; py "sale"; py "cheap";
   py "shop"].

Definition _detect_query_intent (query : str) : str :=
  let query_lower := lower E query in
  if existsb (λ kw, str_contains kw query_lower) trending_kw then py "trending"
  else if existsb (λ kw, str_contains kw query_lower) trans_kw then py "transactional"
  else py "informational".

Definition intent_ttl : list (str * Q) :=
  [(py "trending", 300); (py "transactional", 1800);
   (py "informational", 86400)]%Q.

(** [self.config['cache_ttl']] *)
Definition cache_ttl : list (str * Q) :=
  [(py "news", 900); (py "general", 86400); (py "trending", 300);
   (py "transactional", 1800)]%Q.

(** A cache entry always has keys, so [not cached] is false. *)
Definition _is_cache_valid (cached : CacheEntry) (query : str) : M bool :=
  let* now := time_time in
  let age := (now - default 0 (e_timestamp cached))%Q in
  let query_type := e_type cached in
  let ttl :=
    if str_falsy query then default 86400%Q (dict_get query_type cache_ttl)
    else default 86400%Q (dict_get (_detect_query_intent query) intent_ttl) in
  ret (Qlt_bool age ttl).

Definition _evict_cache (c : list (str * CacheEntry)) : list (str * CacheEntry) :=
  if decide (max_cache_size < length c) then
    let sorted_cache :=
      sorted_desc (λ x : str * CacheEntry, default 0%Q (e_timestamp x.2)) c in
    dict_of_items (take max_cache_size sorted_cache)
  else c.

Definition _save_cache_to_disk : M unit := emit EvSaveDisk.

(** *** Rate limiter *)

(** The bucket of a limited provider after the refill at time [now];
    [last] is [self._last_refill] when that attribute exists. *)
Definition refill (now : Q) (last : option (gmap str Q)) (p : str)
    (rl : Bucket) : Bucket :=
  match last with
  | Some lr =>
      let elapsed := (now - default now (lr !! p))%Q in
      {| b_tokens := py_min (b_max rl) (b_tokens rl + elapsed * b_refill_rate rl)%Q;
         b_max := b_max rl; b_refill_rate := b_refill_rate rl |}
  | None => rl
  end.

Definition take_token (rl : Bucket) : Bucket :=
  {| b_tokens := (b_tokens rl - 1)%Q; b_max := b_max rl;
     b_refill_rate := b_refill_rate rl |}.

(** [_check_rate_limit] for a provider with a bucket, the clock read. *)
Definition check_bucket (now : Q) (p : str) (rl : Bucket) (s : NovaSearch)
    : bool * NovaSearch :=
  let rl := refill now (_last_refill s) p rl in
  let lr := <[p := now]> (default ∅ (_last_refill s)) in
  if Qle_bool 1 (b_tokens rl)
  then (true, set_rate (<[p := take_token rl]> (rate_limit s)) lr s)
  else (false, set_rate (<[p := rl]> (rate_limit s)) lr s).

Definition check_rate_limit_at (now : Q) (p : str) (s : NovaSearch)
    : bool * NovaSearch :=
  match rate_limit s !! p with
  | None => (true, s)
  | Some rl => check_bucket now p rl s
  end.

Definition _check_rate_limit (p : str) : M bool :=
  let* _ := emit (EvRateCheck p) in
  let* s := get_self in
  match rate_limit s !! p with
  | None => ret true
  | Some rl =>
      let* now := time_time in
      let '(granted, s') := check_bucket now p rl s in
      let* _ := put_self s' in ret granted
  end.

(** *** Circuit breaker *)

Definition _is_provider_healthy (p : str) : M bool :=
  let* _ := emit (EvHealthCheck p) in
  let* s := get_self in
  match provider_stats s !! p with
  | None => ret true
  | Some stats =>
      if circuit_open stats then
        let* now := time_time in
        if Qlt_bool 60 (now - default 0 (circuit_open_time stats))%Q then
          let* _ := put_self (set_provider_stats
            (<[p := {| errors := errors stats; circuit_open := false;
                       circuit_open_time := circuit_open_time stats |}]>
               (provider_stats s)) s) in
          ret true
        else ret false
      else ret true
  end.

Definition _record_provider_error (p : str) : M unit :=
  let* _ := emit (EvRecordError p) in
  let* s := get_self in
  let stats :=
    default {| errors := 0; circuit_open := false; circuit_open_time := None |}
            (provider_stats s !! p) in
  let stats := {| errors := errors stats + 1; circuit_open := circuit_open stats;
                  circuit_open_time := circuit_open_time stats |} in
  if decide (5 ≤ errors stats) then
    let* now := time_time in
    put_self (set_provider_stats
      (<[p := {| errors := errors stats; circuit_open := true;
                 circuit_open_time := Some now |}]> (provider_stats s)) s)
  else
    put_self (set_provider_stats (<[p := stats]> (provider_stats s)) s).

Fixpoint healthy_fallbacks (ps : list str) : M (list str) :=
  match ps with
  | [] => ret []
  | p :: ps' =>
      let* ok := _is_provider_healthy p in
      let* rest := healthy_fallbacks ps' in
      ret (if ok then p :: rest else rest)
  end.

Definition _get_provider_order : M (list str) :=
  let* rest := healthy_fallbacks fallback in
  ret (primary :: rest).

(** *** Orchestrator *)

(** [fmt % n] for a string [fmt]: printf-style formatting.  A format
    without any [%] leaves the argument unused, which is a [TypeError]. *)
Definition str_mod (fmt : str) (n : Z) : outcome str :=
  if decide (37%N ∈ fmt) then format_percent E fmt n
  else Raise (Exn (py "TypeError")
                  (py "not all arguments converted during string formatting")).

(** [s / n] for a string [s]: no such operation. *)
Definition str_div (s : str) (n : Z) : outcome Q :=
  Raise (Exn (py "TypeError")
             (py "unsupported operand type(s) for /: 'str' and 'int'")).

(** [(2 ** attempt) + (hashlib.md5(query.encode()).hexdigest()[0:2] % 10) / 10] *)
Definition backoff (attempt : nat) (query : str) : outcome Q :=
  let power := inject_Z (2 ^ Z.of_nat attempt) in
  match str_mod (take 2 (hexdigest (md5 E query))) 10 with
  | Raise e => Raise e
  | Return s =>
      match str_div s 10 with
      | Raise e => Raise e
      | Return jitter => Return (power + jitter)%Q
      end
  end.

Definition adapter_call (p query search_type : str)
    (adapter : nat → str → str → outcome (list ResultItem))
    : M (outcome (list ResultItem)) :=
  let* _ := emit (EvAdapter p query search_type) in
  let* i := next_call in
  ret (adapter i query search_type).

Definition _search_with_provider (p query search_type : str)
    : M (outcome (list ResultItem)) :=
  if decide (p = py "brave") then
    adapter_call p query search_type (_search_brave E)
  else if decide (p = py "google") then
    adapter_call p query search_type (_search_google E)
  else if decide (p = py "duckduckgo") then
    adapter_call p query search_type (_search_duckduckgo E)
  else ret (Raise (Exn (py "Exception") (py "Unknown provider: " ++ p))).

(** How one turn of the provider loop ends: go on with the remembered
    error, or return from [search]. *)
Inductive flow :=
| Next (last_error : option exn)
| Done (r : SearchResult).

(** The [if result.get('results')] branch up to the [return]. *)
Definition store_result (cache_key : str) (results : list ResultItem)
    (p search_type : str) : M unit :=
  let* now := time_time in
  let* s := get_self in
  let* _ := emit (EvCacheStore cache_key) in
  let entry := {| e_results := results; e_provider := p;
                  e_timestamp := Some now; e_type := search_type |} in
  let c := dict_set cache_key entry (cache s) in
  let* _ := put_self (set_cache (_evict_cache c) s) in
  _save_cache_to_disk.

(** The [except Exception as e] handler. *)
Definition on_error (p : str) (e : exn) : M flow :=
  let* _ := _record_provider_error p in
  ret (Next (Some e)).

(** The body of [for p in providers]. *)
Definition try_provider (attempt : nat) (query search_type cache_key : str)
    (p : str) (last_error : option exn) : M flow :=
  let* granted := _check_rate_limit p in
  if negb granted then ret (Next last_error)
  else
    let* waited :=
      (if decide (0 < attempt) then
         match backoff attempt query with
         | Raise e => ret (Raise e)
         | Return seconds => let* _ := emit (EvSleep seconds) in ret (Return tt)
         end
       else ret (Return tt)) in
    match waited with
    | Raise e => on_error p e
    | Return _ =>
        let* result := _search_with_provider p query search_type in
        match result with
        | Raise e => on_error p e
        | Return [] => ret (Next last_error)
        | Return results =>
            let* _ := store_result cache_key results p search_type in
            ret (Done (Found results p false query))
        end
    end.

Fixpoint for_providers (attempt : nat) (query search_type cache_key : str)
    (providers : list str) (last_error : option exn) : M flow :=
  match providers with
  | [] => ret (Next last_error)
  | p :: rest =>
      let* f := try_provider attempt query search_type cache_key p last_error in
      match f with
      | Done r => ret (Done r)
      | Next e => for_providers attempt query search_type cache_key rest e
      end
  end.

Fixpoint for_attempts (attempts : list nat) (query search_type cache_key : str)
    (providers : list str) (last_error : option exn) : M flow :=
  match attempts with
  | [] => ret (Next last_error)
  | attempt :: rest =>
      let* f := for_providers attempt query search_type cache_key providers
                  last_error in
      match f with
      | Done r => ret (Done r)
      | Next e => for_attempts rest query search_type cache_key providers e
      end
  end.

(** [cache_key in self.cache and self._is_cache_valid(...)] *)
Definition cache_lookup (cache_key query : str) : M (option CacheEntry) :=
  let* _ := emit (EvCacheLookup cache_key) in
  let* s := get_self in
  match dict_get cache_key (cache s) with
  | None => ret None
  | Some cached =>
      let* valid := _is_cache_valid cached query in
      ret (if valid then Some cached else None)
  end.

Definition search (query search_type : str) (provider : option str)
    : M SearchResult :=
  let query := _sanitize_query query in
  if str_falsy query then ret (Rejected (py "Empty query") [])
  else
    let cache_key := _get_cache_key query search_type in
    let* hit := cache_lookup cache_key query in
    match hit with
    | Some cached =>
        ret (Found (e_results cached) (e_provider cached) true query)
    | None =>
        let* providers :=
          match provider with
          | Some p => if str_falsy p then _get_provider_order else ret [p]
          | None => _get_provider_order
          end in
        let* f := for_attempts (seq 0 3) query search_type cache_key
                    providers None in
        match f with
        | Done r => ret r
        | Next last_error =>
            ret (Exhausted (str_of_error last_error) query [])
        end
    end.

End Model.

(** ** Vocabulary of the properties *)

(** The time stamp [_evict_cache] sorts an item by. *)
Definition stamp (x : str * CacheEntry) : Q := default 0%Q (e_timestamp x.2).





(** [n] runs of a command in a row. *)
Fixpoint times_m (n : nat) (m : M unit) : M unit :=
  match n with
  | O => ret tt
  | S n' => let* _ := m in times_m n' m
  end.

(** The parameters [_sanitize_url] removes. *)
Definition tracking_params : list str :=
  [py "utm_source"; py "utm_medium"; py "utm_campaign"; py "utm_term";
   py "utm_content"; py "fbclid"; py "gclid"; py "msclkid"; py "ref";
   py "ref_src"; py "ref_url"; py "mc_cid"; py "mc_eid"; py "_ga"; py "_gl";
   py "vero_id"; py "vero_conv"; py "yclid"; py "_hsenc"; py "_hsmi";
   py "mkt_tok"; py "trk"; py "linkId"; py "gclsrc"; py "dclid"; py "braze";
   py "s_kwcid"; py "ef_id"; py "mscklid"].

(** A URL whose query string names one of them. *)
Definition has_tracking_param (url : str) : bool :=
  existsb (λ prm, str_contains (py "?" ++ prm ++ py "=") url
                  || str_contains (py "&" ++ prm ++ py "=") url)
          tracking_params.

Definition is_sleep (e : event) : bool :=
  match e with EvSleep _ => true | _ => false end.

Definition is_adapter_call (e : event) : bool :=
  match e with EvAdapter _ _ _ => true | _ => false end.

(** ** Concrete runs *)

(** Lower-casing of the ASCII letters. *)
Definition ascii_lower (s : str) : str :=
  map (λ c, if ((65 <=? c) && (c <=? 90))%N then (c + 32)%N else c) s.

(** A 16-byte digest standing for MD5 in the runs below; the engine only
    relies on equal texts having equal digests. *)
Definition digest16 (s : str) : list N := take 16 (s ++ repeat 0%N 16).

Definition not_configured : nat → str → str → outcome (list ResultItem) :=
  λ _ _ _, Raise (Exn (py "Exception") (py "API key not configured")).

(** An environment with the given Brave adapter, the other adapters
    failing, and a clock advancing one second per reading from [start]. *)
Definition env_of (start : Z)
    (brave : nat → str → str → outcome (list ResultItem)) : Env :=
  {| md5 := digest16;
     lower := ascii_lower;
     format_percent := λ _ _,
       Raise (Exn (py "ValueError") (py "unsupported format character"));
     clock := λ i, inject_Z (start + Z.of_nat i);
     _search_brave := brave;
     _search_google := not_configured;
     _search_duckduckgo := not_configured |}.

(** The instance [__init__] builds when there is no snapshot file. *)
Definition fresh : NovaSearch :=
  {| cache := []; provider_stats := ∅; rate_limit := initial_rate_limit;
     _last_refill := None |}.

Definition world_of (s : NovaSearch) : World :=
  {| self := s; ticks := 0; calls := 0; trace := [] |}.

Definition tracked_item : ResultItem :=
  {| r_title := py "OpenAI";
     r_url := py "https://openai.com/blog?utm_source=newsletter&id=7";
     r_description := py "Research and deployment";
     r_provider := py "brave" |}.

(** Brave has failed three times before. *)
Definition troubled : NovaSearch :=
  set_provider_stats
    {[ py "brave" := {| errors := 3; circuit_open := false;
                        circuit_open_time := None |} ]} fresh.

(** Brave's bucket is empty. *)
Definition drained : NovaSearch :=
  {| cache := []; provider_stats := ∅;
     rate_limit := {[ py "brave" := {| b_tokens := 0; b_max := 60;
                                       b_refill_rate := 1 |} ]};
     _last_refill := None |}.

(** A cache of [n] entries with distinct keys, stored at times [1..n]. *)
Definition cache_of_size (n : nat) : list (str * CacheEntry) :=
  map (λ i, ([N.of_nat i],
             {| e_results := []; e_provider := py "brave";
                e_timestamp := Some (inject_Z (Z.of_nat i));
                e_type := py "web" |})) (seq 1 n).

(** The same world with the clock at its [n]-th reading. *)
Definition at_tick (n : nat) (w : World) : World :=
  {| self := self w; ticks := n; calls := calls w; trace := trace w |}.

(** The environment of the breaker runs: every adapter fails, the clock
    starts at 1000 seconds. *)
Definition failing_env : Env := env_of 1000 not_configured.

(** Brave after five recorded errors, the first clock reading being the
    time of the fifth. *)
Definition tripped : World :=
  (times_m 5 (_record_provider_error failing_env (py "brave")) (world_of fresh)).2.


(** The message of the [TypeError] that [str % int] raises. *)
Definition unused_argument : exn :=
  Exn (py "TypeError") (py "not all arguments converted during string formatting").

(** Brave answers every call with no results: query [x], Brave asked for
    by name, on a fresh instance. *)
Definition empty_run : SearchResult * World :=
  search (env_of 1000 (λ _ _ _, Return [])) (py "x") (py "web")
         (Some (py "brave")) (world_of fresh).

(** Brave answers with one result whose URL carries a tracking parameter:
    query [OpenAI], on an instance where Brave has three errors. *)
Definition tracked_run : SearchResult * World :=
  search (env_of 1000 (λ _ _ _, Return [tracked_item])) (py "OpenAI") (py "web")
         (Some (py "brave")) (world_of troubled).

(** Brave's bucket is empty and refills one token in ten seconds. *)
Definition slow_drained : NovaSearch :=
  {| cache := []; provider_stats := ∅;
     rate_limit := {[ py "brave" := {| b_tokens := 0; b_max := 60;
                                       b_refill_rate := 1 # 10 |} ]};
     _last_refill := None |}.

(** Brave's bucket is empty and was last refilled at time 1000. *)
Definition drained_at_1000 : NovaSearch :=
  {| cache := []; provider_stats := ∅;
     rate_limit := {[ py "brave" := {| b_tokens := 0; b_max := 60;
                                       b_refill_rate := 1 |} ]};
     _last_refill := Some {[ py "brave" := 1000%Q ]} |}.

(** ** The remaining public operations *)

(** The dictionary returned by [semantic_search]. *)
Record SemanticResult := {
  s_results : list ResultItem;
  s_provider : str;
  s_semantic : bool;
  s_query : str }.

(** [baseline.get('results', [])]: every result of [search] has the key. *)
Definition get_results (r : SearchResult) : list ResultItem :=
  match r with
  | Rejected _ results => results
  | Found results _ _ _ => results
  | Exhausted _ _ results => results
  end.

(** [baseline.get('provider', 'unknown')] *)
Definition get_provider (r : SearchResult) : str :=
  match r with
  | Found _ p _ _ => p
  | _ => py "unknown"
  end.

Definition semantic_search (E : Env) (query : str) : M SemanticResult :=
  let* baseline := search E query (py "web") None in
  let enhanced_results := get_results baseline in
  ret {| s_results := enhanced_results; s_provider := get_provider baseline;
         s_semantic := true; s_query := query |}.

(** [clear_cache], on the instance; the best-effort removal of the snapshot
    file touches nothing the engine reads afterwards. *)
Definition clear_cache : M unit :=
  let* s := get_self in
  put_self (set_cache [] s).

(** A cached answer: same results and provider, from the cache. *)
Definition is_cached (r : SearchResult) : bool :=
  match r with Found _ _ true _ => true | _ => false end.

(** A fresh answer: the only result of [search] that comes with a store. *)
Definition is_fresh (r : SearchResult) : bool :=
  match r with Found _ _ false _ => true | _ => false end.

(** The error count of a provider, zero when it has no statistics yet. *)
Definition error_count (s : NovaSearch) (p : str) : nat :=
  from_option errors 0 (provider_stats s !! p).

(** A cache entry stored at time [t]. *)
Definition entry_at (t : Q) : CacheEntry :=
  {| e_results := [tracked_item]; e_provider := py "brave";
     e_timestamp := Some t; e_type := py "web" |}.

(** What every step of a search keeps: error counts do not go down, no
    time is spent sleeping, adapter calls are only added. *)
Definition quiet (w w' : World) : Prop :=
  (∀ q, error_count (self w) q ≤ error_count (self w') q) ∧
  filter is_sleep (trace w') = filter is_sleep (trace w) ∧
  calls w ≤ calls w'.

(** A quiet step that also leaves the cache alone. *)
Definition steady (w w' : World) : Prop :=
  cache (self w') = cache (self w) ∧ quiet w w'.

(** The cache after [results] of provider [p] were stored under [key] at
    time [now]. *)
Definition stored (key : str) (results : list ResultItem) (p search_type : str)
    (now : Q) (c : list (str * CacheEntry)) : list (str * CacheEntry) :=
  _evict_cache
    (dict_set key {| e_results := results; e_provider := p;
                     e_timestamp := Some now; e_type := search_type |} c).

(** How a part of the provider loop leaves the world: quietly, and with
    the cache either as it was (the loop goes on) or holding the results
    it returns. *)
Definition loop_effect (query search_type cache_key : str) (w : World)
    (f : flow) (w' : World) : Prop :=
  quiet w w' ∧
  match f with
  | Next _ => cache (self w') = cache (self w)
  | Done res =>
      ∃ results p now,
        res = Found results p false query ∧ results ≠ [] ∧
        cache (self w')
        = stored cache_key results p search_type now (cache (self w))
  end.

(** The environment of [tracked_run], and the world a little later:
    the instance that run leaves behind, at the hundredth clock reading. *)
Definition tracked_env : Env := env_of 1000 (λ _ _ _, Return [tracked_item]).

Definition after_tracked_run : World := at_tick 100 tracked_run.2.

(** The entry [tracked_run] stores, at the second clock reading. *)
Definition tracked_entry : CacheEntry :=
  {| e_results := [tracked_item]; e_provider := py "brave";
     e_timestamp := Some (inject_Z 1001); e_type := py "web" |}.

(** The names [_search_with_provider] dispatches on. *)
Definition adapter_names : list str :=
  [py "brave"; py "google"; py "duckduckgo"].

(** The exceptions a search for [query] can catch in environment [E]:
    the [TypeError] of the backoff computation, the [Unknown provider]
    exception of the dispatch, and whatever one of the three adapters
    raises at some call. *)
Definition catchable (E : Env) (query search_type : str) (e : exn) : Prop :=
  e = unused_argument ∨
  (∃ p, (p ≠ py "brave" ∧ p ≠ py "google" ∧ p ≠ py "duckduckgo") ∧
        e = Exn (py "Exception") (py "Unknown provider: " ++ p)) ∨
  (∃ i, _search_brave E i query search_type = Raise e ∨
        _search_google E i query search_type = Raise e ∨
        _search_duckduckgo E i query search_type = Raise e).

(** How the remembered error follows the recorded errors over a part of
    the provider loop: either nothing was recorded and the remembered
    error is as before, or an exception the search can catch is
    remembered and some count went up. *)
Definition told (E : Env) (query search_type : str) (w w' : World)
    (last_error last_error' : option exn) : Prop :=
  (last_error' = last_error ∧
   ∀ p, error_count (self w') p = error_count (self w) p) ∨
  ((∃ e, last_error' = Some e ∧ catchable E query search_type e) ∧
   (∀ p, error_count (self w) p ≤ error_count (self w') p) ∧
   ∃ p, error_count (self w) p < error_count (self w') p).


(** The environment of [empty_run]. *)
Definition empty_env : Env := env_of 1000 (λ _ _ _, Return []).

(** * Properties *)

Section SanitizerFacts.

Lemma lstrip_suffix s : lstrip s `suffix_of` s.
Proof.
  induction s as [|c s IH]; simpl; [done|].
  destruct (isspace c); [by apply suffix_cons_r | done].
Qed.

Lemma lstrip_idem s : lstrip (lstrip s) = lstrip s.
Proof.
  induction s as [|c s IH]; simpl; [done|].
  destruct (isspace c) eqn:Hc; [done|]. simpl. by rewrite Hc.
Qed.

(** Stripping on one side never creates whitespace on the other. *)
Lemma lstrip_snoc_nonspace s c :
  isspace c = false → lstrip (s ++ [c]) = lstrip s ++ [c].
Proof.
  intros Hc. induction s as [|d s IH]; simpl.
  - by rewrite Hc.
  - destruct (isspace d); [done|done].
Qed.

Lemma lstrip_rstrip s : lstrip (rstrip s) = rstrip (lstrip s).
Proof.
  unfold rstrip.
  induction s as [|c s IH] using rev_ind; [done|].
  rewrite rev_unit. simpl.
  destruct (isspace c) eqn:Hc.
  - rewrite IH. clear IH.
    assert (lstrip (rev (lstrip (s ++ [c]))) = lstrip (rev (lstrip s))) as ->; [|done].
    induction s as [|d s IH]; simpl.
    + by rewrite Hc.
    + destruct (isspace d) eqn:Hd; [done|].
      rewrite (app_comm_cons s [c] d), rev_unit. simpl. by rewrite Hc.
  - simpl. rewrite rev_involutive, !lstrip_snoc_nonspace by done.
    rewrite rev_unit. simpl. rewrite Hc. simpl. by rewrite rev_involutive.
Qed.

Lemma rstrip_idem s : rstrip (rstrip s) = rstrip s.
Proof. unfold rstrip. by rewrite rev_involutive, lstrip_idem. Qed.

Lemma strip_idem s : strip (strip s) = strip s.
Proof.
  unfold strip. by rewrite lstrip_rstrip, lstrip_idem, rstrip_idem.
Qed.

Lemma lstrip_length s : length (lstrip s) ≤ length s.
Proof. apply suffix_length, lstrip_suffix. Qed.

Lemma lstrip_Forall (P : N → Prop) s : Forall P s → Forall P (lstrip s).
Proof.
  destruct (lstrip_suffix s) as [k Hk]. intros H.
  rewrite Hk in H. by apply Forall_app in H as [_ H].
Qed.

Lemma strip_length s : length (strip s) ≤ length s.
Proof.
  unfold strip, rstrip. rewrite length_rev.
  etrans; [apply lstrip_length|]. rewrite length_rev. apply lstrip_length.
Qed.

Lemma strip_Forall (P : N → Prop) s : Forall P s → Forall P (strip s).
Proof.
  intros H. unfold strip, rstrip.
  by apply Forall_rev, lstrip_Forall, Forall_rev, lstrip_Forall.
Qed.

(** Removing one character: nothing of it is left, and a string without
    it is unchanged. *)
Lemma str_remove_absent c s : Forall (λ x, x ≠ c) s → str_remove c s = s.
Proof.
  induction 1 as [|x s Hx Hs IH]; [done|].
  unfold str_remove in *. rewrite filter_cons_True by done. by f_equal.
Qed.

Lemma remove_all_absent cs s :
  Forall (λ x, x ∉ cs) s → fold_left (λ q c, str_remove c q) cs s = s.
Proof.
  revert s. induction cs as [|c cs IH]; intros s Hs; simpl; [done|].
  rewrite str_remove_absent.
  - apply IH. eapply Forall_impl; [done|]. simpl. set_solver.
  - eapply Forall_impl; [done|]. simpl. set_solver.
Qed.

Lemma remove_all_length cs s :
  length (fold_left (λ q c, str_remove c q) cs s) ≤ length s.
Proof.
  revert s. induction cs as [|c cs IH]; intros s; simpl; [done|].
  etrans; [apply IH|]. apply length_filter.
Qed.

Lemma remove_all_preserves (P : N → Prop) cs s :
  Forall P s → Forall P (fold_left (λ q c, str_remove c q) cs s).
Proof.
  revert s. induction cs as [|c cs IH]; intros s Hs; simpl; [done|].
  apply IH. unfold str_remove. rewrite Forall_forall in Hs |- *.
  intros x Hx. apply list_elem_of_filter in Hx as [_ Hx]. by apply Hs.
Qed.

Lemma remove_all_clean cs s :
  Forall (λ x, x ∉ cs) (fold_left (λ q c, str_remove c q) cs s).
Proof.
  revert s. induction cs as [|c cs IH]; intros s; simpl.
  - apply Forall_forall. intros x _. apply not_elem_of_nil.
  - apply Forall_forall. intros x Hx Hin.
    apply elem_of_cons in Hin as [->|Hin].
    + assert (Forall (λ x, x ≠ c) (fold_left (λ q c, str_remove c q) cs (str_remove c s))) as HF.
      { apply remove_all_preserves. unfold str_remove.
        apply Forall_forall. intros y Hy. by apply list_elem_of_filter in Hy as [? _]. }
      rewrite Forall_forall in HF. by apply (HF c).
    + specialize (IH (str_remove c s)). rewrite Forall_forall in IH.
      by apply (IH x).
Qed.

Lemma sanitize_query_length q : length (_sanitize_query q) ≤ max_query_length.
Proof.
  unfold _sanitize_query. destruct (str_falsy q); [simpl; lia|].
  etrans; [apply strip_length|]. etrans; [apply remove_all_length|].
  rewrite length_take. lia.
Qed.

Lemma sanitize_query_clean q : Forall (λ x, x ∉ dangerous) (_sanitize_query q).
Proof.
  unfold _sanitize_query. destruct (str_falsy q); [by constructor|].
  apply strip_Forall, remove_all_clean.
Qed.

(** C7. The query sanitizer is idempotent: for every string [q],
    sanitizing the sanitized query gives the sanitized query again. *)
Theorem sanitize_query_idempotent (q : str) :
  _sanitize_query (_sanitize_query q) = _sanitize_query q.
Proof.
  pose proof (sanitize_query_length q) as Hlen.
  pose proof (sanitize_query_clean q) as Hclean.
  unfold _sanitize_query at 1.
  destruct (str_falsy (_sanitize_query q)) eqn:He.
  - by destruct (_sanitize_query q).
  - rewrite take_ge by done.
    rewrite remove_all_absent by done.
    unfold _sanitize_query. destruct (str_falsy q); [done|].
    apply strip_idem.
Qed.

End SanitizerFacts.

(** ** The orchestrator: rejected queries and rate-limit denials *)

Section OrchestratorFacts.
Variable E : Env.

(** C8. A query whose sanitized form is empty is answered with the error
    [Empty query] and no results, and the world is left exactly as it was:
    no cache lookup or store, no rate-limiter or circuit-breaker call, no
    clock reading and no adapter call. *)
Theorem empty_query_rejected (query search_type : str) (provider : option str)
    (w : World) :
  _sanitize_query query = [] →
  search E query search_type provider w = (Rejected (py "Empty query") [], w).
Proof.
  intros Hq. unfold search. by rewrite Hq.
Qed.

(** What a rate-limit check can change: the buckets and the refill times,
    nothing else; it leaves one entry in the trace. *)
Lemma check_rate_limit_frame (p : str) (w : World) :
  let w' := (_check_rate_limit E p w).2 in
  provider_stats (self w') = provider_stats (self w) ∧
  cache (self w') = cache (self w) ∧
  calls w' = calls w ∧
  trace w' = trace w ++ [EvRateCheck p].
Proof.
  unfold _check_rate_limit, bind, emit, get_self, time_time, put_self, ret.
  simpl. destruct (rate_limit (self w) !! p) as [rl|]; simpl; [|done].
  unfold check_bucket. by destruct (Qle_bool 1 _).
Qed.

(** C9. When the rate limiter denies a provider, that turn of the provider
    loop ends at once: the loop goes on to the next provider with the
    remembered error unchanged, the circuit-breaker table is untouched, no
    error is recorded and no adapter is called. *)
Theorem rate_denial_skips_provider (attempt : nat)
    (query search_type cache_key p : str) (last_error : option exn) (w : World) :
  (_check_rate_limit E p w).1 = false →
  ∃ w', try_provider E attempt query search_type cache_key p last_error w
        = (Next last_error, w') ∧
    provider_stats (self w') = provider_stats (self w) ∧
    cache (self w') = cache (self w) ∧
    calls w' = calls w ∧
    trace w' = trace w ++ [EvRateCheck p].
Proof.
  intros Hdenied. exists (_check_rate_limit E p w).2.
  split; [|apply check_rate_limit_frame].
  unfold try_provider, bind.
  destruct (_check_rate_limit E p w) as [granted w'].
  simpl in Hdenied. by subst granted.
Qed.

End OrchestratorFacts.

Lemma empty_query_rejected_witness :
  _sanitize_query (py " <$;> ") = [] ∧
  search (env_of 1000 not_configured) (py " <$;> ") (py "web") None
         (world_of fresh)
  = (Rejected (py "Empty query") [], world_of fresh).
Proof.
  split; [reflexivity|].
  apply (empty_query_rejected (env_of 1000 not_configured)). reflexivity.
Defined.

Lemma rate_denial_skips_provider_witness :
  (_check_rate_limit (env_of 1000 not_configured) (py "brave")
     (world_of drained)).1 = false ∧
  ∃ w', try_provider (env_of 1000 not_configured) 0 (py "x") (py "web")
          (py "k") (py "brave") None (world_of drained) = (Next None, w') ∧
    provider_stats (self w') = provider_stats (self (world_of drained)) ∧
    cache (self w') = cache (self (world_of drained)) ∧
    calls w' = calls (world_of drained) ∧
    trace w' = trace (world_of drained) ++ [EvRateCheck (py "brave")].
Proof.
  split; [reflexivity|].
  apply (rate_denial_skips_provider (env_of 1000 not_configured)). reflexivity.
Defined.

(** ** Circuit breaker *)

Section BreakerFacts.
Variable E : Env.

(** The error count of a provider, zero when it has no statistics yet. *)
Local Abbreviation errors_of s p := (from_option errors 0 (provider_stats s !! p)).



(** The last of [n + 1] runs starts where the first [n] end. *)
Lemma times_m_step (n : nat) (m : M unit) (w : World) :
  times_m (S n) m w = times_m n m (m w).2.
Proof. simpl. unfold bind. by destruct (m w). Qed.



(** The health check of a provider whose circuit is open. *)
Lemma is_provider_healthy_open (p : str) (st : Stats) (w : World) :
  provider_stats (self w) !! p = Some st →
  circuit_open st = true →
  _is_provider_healthy E p w =
  if Qlt_bool 60 (clock E (ticks w) - default 0 (circuit_open_time st))%Q
  then (true,
        {| self := set_provider_stats
                     (<[p := {| errors := errors st; circuit_open := false;
                                circuit_open_time := circuit_open_time st |}]>
                        (provider_stats (self w))) (self w);
           ticks := S (ticks w); calls := calls w;
           trace := trace w ++ [EvHealthCheck p] |})
  else (false,
        {| self := self w; ticks := S (ticks w); calls := calls w;
           trace := trace w ++ [EvHealthCheck p] |}).
Proof.
  intros Hst Hopen.
  unfold _is_provider_healthy, bind, emit, get_self, time_time, put_self, ret.
  simpl. rewrite Hst, Hopen. simpl.
  by destruct (Qlt_bool 60 _).
Qed.


End BreakerFacts.


(** ** Rate limiter *)

Section RateLimiterFacts.

Lemma Qlt_bool_true (x y : Q) : Qlt_bool x y = true ↔ (x < y)%Q.
Proof.
  unfold Qlt_bool. rewrite negb_true_iff.
  destruct (Qle_bool y x) eqn:Hle.
  - apply Qle_bool_iff in Hle. split; [done|]. intros Hlt.
    exfalso. by apply (Qlt_not_le _ _ Hlt).
  - split; [intros _|done]. apply Qnot_le_lt. intros Hle'.
    apply Qle_bool_iff in Hle'. congruence.
Qed.

Lemma Qlt_bool_false (x y : Q) : Qlt_bool x y = false ↔ (y <= x)%Q.
Proof.
  unfold Qlt_bool. rewrite negb_false_iff. apply Qle_bool_iff.
Qed.


Lemma py_min_glb (a b c : Q) : (c <= a)%Q → (c <= b)%Q → (c <= py_min a b)%Q.
Proof. intros Ha Hb. unfold py_min. destruct (Qlt_bool b a); assumption. Qed.





(** The method reads the clock once and then does what
    [check_rate_limit_at] does at that reading. *)
Lemma check_rate_limit_run (E : Env) (p : str) (w : World) :
  let r := _check_rate_limit E p w in
  (r.1, self r.2) = check_rate_limit_at (clock E (ticks w)) p (self w).
Proof.
  unfold _check_rate_limit, check_rate_limit_at, bind, emit, get_self,
    time_time, put_self, ret.
  simpl. destruct (rate_limit (self w) !! p) as [rl|]; simpl; [|done].
  by destruct (check_bucket _ _ _ _).
Qed.



(** The assumption on the clock is needed: [time.time()] is the wall
    clock, and at a reading ten seconds before the last refill the elapsed
    time is negative and the bucket goes below zero. *)
Example clock_backwards_underflow :
  let r := check_rate_limit_at 990 (py "brave") drained_at_1000 in
  r.1 = false ∧
  b_tokens <$> rate_limit r.2 !! py "brave" = Some (0 + (990 - 1000) * 1)%Q.
Proof. split; reflexivity. Qed.

End RateLimiterFacts.


(** ** Cache store: eviction *)

Section CacheFacts.
Context {A : Type} (key : A → Q).

(** Descending order of the sort key. *)
Local Abbreviation desc := (StronglySorted (λ a b, key b <= key a)%Q).

Lemma insert_desc_perm (x : A) (l : list A) : insert_desc key x l ≡ₚ x :: l.
Proof.
  induction l as [|y l IH]; simpl; [done|].
  destruct (Qlt_bool (key x) (key y)); [|done].
  rewrite IH. apply Permutation_swap.
Qed.

Lemma sorted_desc_perm (l : list A) : sorted_desc key l ≡ₚ l.
Proof.
  induction l as [|x l IH]; simpl; [done|].
  by rewrite insert_desc_perm, IH.
Qed.

Lemma insert_desc_sorted (x : A) (l : list A) :
  desc l → desc (insert_desc key x l).
Proof.
  induction 1 as [|y l Hl IH Hy]; simpl.
  - repeat constructor.
  - destruct (Qlt_bool (key x) (key y)) eqn:Hlt.
    + apply Qlt_bool_true in Hlt. constructor; [done|].
      rewrite insert_desc_perm. constructor; [lra|done].
    + apply Qlt_bool_false in Hlt. constructor; [by constructor|].
      constructor; [done|].
      eapply Forall_impl; [exact Hy|]. simpl. intros z Hz. lra.
Qed.

Lemma sorted_desc_sorted (l : list A) : desc (sorted_desc key l).
Proof.
  induction l as [|x l IH]; simpl; [constructor|].
  by apply insert_desc_sorted.
Qed.

(** In a descending list, whatever comes first is at least as recent as
    whatever comes later. *)
Lemma desc_app (l1 l2 : list A) (a b : A) :
  desc (l1 ++ l2) → a ∈ l1 → b ∈ l2 → (key b <= key a)%Q.
Proof.
  induction l1 as [|x l1 IH]; simpl; intros Hs Ha Hb.
  - by apply elem_of_nil in Ha.
  - apply StronglySorted_inv in Hs as [Hs Hx].
    apply elem_of_cons in Ha as [->|Ha]; [|by apply IH].
    rewrite Forall_forall in Hx. apply Hx. apply elem_of_app. by right.
Qed.

End CacheFacts.

Section DictFacts.
Context {A : Type}.

Lemma dict_set_new (k : str) (v : A) (d : list (str * A)) :
  k ∉ d.*1 → dict_set k v d = d ++ [(k, v)].
Proof.
  induction d as [|[k' v'] d IH]; simpl; [done|].
  intros Hk. apply not_elem_of_cons in Hk as [Hne Hk].
  rewrite decide_False by done. by rewrite IH.
Qed.

Lemma dict_of_items_app (acc items : list (str * A)) :
  NoDup (acc ++ items).*1 →
  fold_left (λ d kv, dict_set kv.1 kv.2 d) items acc = acc ++ items.
Proof.
  revert acc. induction items as [|[k v] items IH]; intros acc Hnd; simpl.
  - by rewrite app_nil_r.
  - rewrite dict_set_new.
    + rewrite IH; rewrite <- app_assoc; done.
    + rewrite fmap_app in Hnd. apply NoDup_app in Hnd as (_ & Hdisj & _).
      intros Hin. apply (Hdisj k Hin). simpl. apply elem_of_cons. by left.
Qed.

(** Building a dictionary from items with distinct keys keeps them all,
    in their order. *)
Lemma dict_of_items_nodup (items : list (str * A)) :
  NoDup items.*1 → dict_of_items items = items.
Proof. intros Hnd. unfold dict_of_items. by rewrite dict_of_items_app. Qed.

End DictFacts.

Section EvictionFacts.

(** Over the limit, eviction keeps the first [max_cache_size] items of the
    cache sorted by time stamp, newest first. *)
Lemma evict_cache_over (c : list (str * CacheEntry)) :
  NoDup c.*1 → max_cache_size < length c →
  _evict_cache c = take max_cache_size (sorted_desc stamp c).
Proof.
  intros Hnd Hlen. unfold _evict_cache. rewrite decide_True by done.
  apply dict_of_items_nodup.
  rewrite fmap_take. eapply sublist_NoDup; [|apply sublist_take].
  by rewrite (sorted_desc_perm stamp c).
Qed.

(** At or under the limit, eviction does nothing. *)
Lemma evict_cache_under (c : list (str * CacheEntry)) :
  length c ≤ max_cache_size → _evict_cache c = c.
Proof.
  intros Hlen. unfold _evict_cache. rewrite decide_False by lia. done.
Qed.

Lemma evict_cache_one_over (c : list (str * CacheEntry)) :
  NoDup c.*1 → length c = S max_cache_size →
  length (_evict_cache c) = max_cache_size ∧
  ∃ evicted, c ≡ₚ _evict_cache c ++ [evicted] ∧
    ∀ kept, kept ∈ _evict_cache c → (stamp evicted <= stamp kept)%Q.
Proof.
  intros Hnd Hlen. rewrite evict_cache_over by (done || lia).
  pose proof (sorted_desc_perm stamp c) as Hperm.
  pose proof (sorted_desc_sorted stamp c) as Hsorted.
  set (l := sorted_desc stamp c) in *.
  assert (length l = S max_cache_size) as Hl by (by rewrite Hperm).
  split; [rewrite length_take; lia|].
  assert (∃ evicted, drop max_cache_size l = [evicted]) as [evicted Hdrop].
  { pose proof (length_drop l max_cache_size) as Hd. rewrite Hl in Hd.
    destruct (drop max_cache_size l) as [|e [|? ?]]; simpl in Hd; [lia| |lia].
    by exists e. }
  exists evicted. split.
  - by rewrite <- Hdrop, take_drop.
  - intros kept Hkept. apply (desc_app stamp (take max_cache_size l) [evicted]).
    + by rewrite <- Hdrop, take_drop.
    + done.
    + apply elem_of_cons. by left.
Qed.

(** C5. A cache that holds 1001 entries after an insert holds exactly 1000
    after eviction: the entries kept and the one entry evicted make up the
    cache as it was, and the evicted entry was stored no later than any
    entry kept, so the entries kept are the 1000 most recently stored. *)
Theorem evict_cache_keeps_newest (c : list (str * CacheEntry)) :
  NoDup c.*1 → length c = 1001 →
  length (_evict_cache c) = 1000 ∧
  ∃ evicted, c ≡ₚ _evict_cache c ++ [evicted] ∧
    ∀ kept, kept ∈ _evict_cache c → (stamp evicted <= stamp kept)%Q.
Proof. apply evict_cache_one_over. Qed.

Lemma cache_of_size_keys (n : nat) : NoDup (cache_of_size n).*1.
Proof.
  unfold cache_of_size. rewrite <- list_fmap_compose.
  apply NoDup_fmap_2; [|apply NoDup_seq].
  intros i j Hij. simpl in Hij. injection Hij as Hij. lia.
Qed.

Lemma cache_of_size_length (n : nat) : length (cache_of_size n) = n.
Proof. unfold cache_of_size. by rewrite length_map, length_seq. Qed.

End EvictionFacts.

Lemma evict_cache_keeps_newest_witness :
  NoDup (cache_of_size 1001).*1 ∧ length (cache_of_size 1001) = 1001 ∧
  length (_evict_cache (cache_of_size 1001)) = 1000 ∧
  ∃ evicted, cache_of_size 1001 ≡ₚ _evict_cache (cache_of_size 1001) ++ [evicted] ∧
    ∀ kept, kept ∈ _evict_cache (cache_of_size 1001) →
      (stamp evicted <= stamp kept)%Q.
Proof.
  split; [apply cache_of_size_keys|].
  split; [apply cache_of_size_length|].
  apply evict_cache_keeps_newest;
    [apply cache_of_size_keys | apply cache_of_size_length].
Defined.

(** ** The orchestrator: retries and successes *)

Section RetryFacts.
Variable E : Env.

Lemma hex_digit_not_percent (n : N) : hex_digit n ≠ 37%N.
Proof. unfold hex_digit. destruct (n <? 10)%N; lia. Qed.

(** A hexadecimal digest holds no [%]. *)
Lemma hexdigest_no_percent (bytes : list N) : 37%N ∉ hexdigest bytes.
Proof.
  induction bytes as [|b bytes IH]; simpl.
  - apply not_elem_of_nil.
  - intros Hin. apply elem_of_cons in Hin as [Hin|Hin].
    { by apply (hex_digit_not_percent (b / 16 mod 16)). }
    apply elem_of_cons in Hin as [Hin|Hin]; [|done].
    by apply (hex_digit_not_percent (b mod 16)).
Qed.

(** The backoff of the source is never computed: formatting the first two
    digits of the digest with [% 10] raises, whatever the attempt and the
    query. *)
Lemma backoff_raises (attempt : nat) (query : str) :
  backoff E attempt query = Raise unused_argument.
Proof.
  unfold backoff, str_mod. rewrite decide_False; [done|].
  intros Hin. apply (hexdigest_no_percent (md5 E query)).
  by apply (sublist_subseteq _ _ (sublist_take _ _) _ Hin).
Qed.

(** So on every attempt after the first, a provider that the rate limiter
    grants goes straight to the exception handler: no sleep, no adapter
    call, one error recorded against the provider. *)
Lemma retry_goes_to_handler (attempt : nat) (query search_type cache_key p : str)
    (last_error : option exn) (w : World) :
  0 < attempt → (_check_rate_limit E p w).1 = true →
  try_provider E attempt query search_type cache_key p last_error w
  = on_error E p unused_argument (_check_rate_limit E p w).2.
Proof.
  intros Hattempt Hgranted. unfold try_provider, bind at 1.
  destruct (_check_rate_limit E p w) as [granted w1]. simpl in *. subst granted.
  simpl. rewrite decide_True by done. rewrite backoff_raises.
  unfold bind, ret. done.
Qed.

Lemma search_with_provider_frame (p query search_type : str) (w : World) :
  self (_search_with_provider E p query search_type w).2 = self w.
Proof.
  unfold _search_with_provider, adapter_call, bind, emit, next_call, ret.
  repeat case_decide; done.
Qed.

(** A turn of the provider loop that returns from [search] has stored the
    adapter's results as they came and has left the circuit-breaker table
    as it was: the error count of the provider is not reset. *)
Lemma success_keeps_breaker (attempt : nat) (query search_type cache_key p : str)
    (last_error : option exn) (w w' : World) (r : SearchResult) :
  try_provider E attempt query search_type cache_key p last_error w = (Done r, w') →
  provider_stats (self w') = provider_stats (self w) ∧
  ∃ results now,
    r = Found results p false query ∧
    cache (self w')
    = _evict_cache
        (dict_set cache_key
           {| e_results := results; e_provider := p; e_timestamp := Some now;
              e_type := search_type |}
           (cache (self w))).
Proof.
  unfold try_provider, bind at 1.
  pose proof (check_rate_limit_frame E p w) as (Hstats & Hcache & _).
  destruct (_check_rate_limit E p w) as [granted w1]. simpl in Hstats, Hcache.
  destruct granted; simpl; [|by unfold ret].
  destruct (decide (0 < attempt)).
  { rewrite backoff_raises. unfold bind, ret, on_error, bind.
    by destruct (_record_provider_error E p w1). }
  unfold bind at 1. unfold ret at 1. unfold bind at 1.
  pose proof (search_with_provider_frame p query search_type w1) as Hframe.
  destruct (_search_with_provider E p query search_type w1) as [[results|e] w2].
  - destruct results as [|item results]; [by unfold ret|].
    unfold bind, store_result, bind, time_time, get_self, emit, put_self,
      _save_cache_to_disk, emit, ret. simpl.
    intros [= <- <-]. simpl in *. rewrite Hframe. simpl.
    split; [done|]. eexists _, _. split; [done|]. by rewrite Hcache.
  - unfold on_error, bind, ret. by destruct (_record_provider_error E p w2).
Qed.

End RetryFacts.

(** C2. With Brave answering every call with no results, the second and
    third attempts neither sleep nor call the adapter: the trace of the
    whole search holds one adapter call, from the first attempt, no sleep,
    and one recorded error for each later attempt. *)
Theorem retry_raises_instead_of_sleeping :
  trace empty_run.2
  = [EvCacheLookup (_get_cache_key (env_of 1000 (λ _ _ _, Return [])) (py "x") (py "web"));
     EvRateCheck (py "brave"); EvAdapter (py "brave") (py "x") (py "web");
     EvRateCheck (py "brave"); EvRecordError (py "brave");
     EvRateCheck (py "brave"); EvRecordError (py "brave")] ∧
  filter is_sleep (trace empty_run.2) = [] ∧
  length (filter is_adapter_call (trace empty_run.2)) = 1 ∧
  errors <$> provider_stats (self empty_run.2) !! py "brave" = Some 2.
Proof. by vm_compute. Qed.

(** C10. With Brave answering every call with no results, no adapter ever
    raises, yet the search does not end with the error [None]: it ends
    with the message of the [TypeError] of the backoff computation. *)
Theorem exhausted_error_is_type_error :
  empty_run.1 = Exhausted (exn_msg unused_argument) (py "x") [] ∧
  empty_run.1 ≠ Exhausted (py "None") (py "x") [].
Proof. split; [by vm_compute|]. vm_compute. discriminate. Qed.

(** C1. With Brave answering with one result on an instance where Brave
    has three recorded errors, the search stores the result and returns it
    tagged as not cached, and the error count of Brave is still three. *)
Theorem success_does_not_reset_errors :
  tracked_run.1 = Found [tracked_item] (py "brave") false (py "OpenAI") ∧
  e_results <$>
    dict_get (_get_cache_key (env_of 1000 (λ _ _ _, Return [tracked_item]))
                (py "OpenAI") (py "web"))
             (cache (self tracked_run.2))
  = Some [tracked_item] ∧
  provider_stats (self tracked_run.2) !! py "brave"
  = Some {| errors := 3; circuit_open := false; circuit_open_time := None |}.
Proof. by vm_compute. Qed.

(** C3. In the same run the URL of the stored result still carries its
    tracking parameter: the cache holds the adapter's item unchanged. *)
Theorem cached_url_keeps_tracking_parameter :
  (cache (self tracked_run.2)).*2 ≫= e_results = [tracked_item] ∧
  has_tracking_param (r_url tracked_item) = true ∧
  str_contains (py "utm_source=newsletter") (r_url tracked_item) = true.
Proof. by vm_compute. Qed.

(** When the rate limiter denies Brave on all three attempts nothing is
    ever assigned to [last_error], and the error of the result is the
    rendering of [None]. *)
Example denied_everywhere_gives_None :
  (search (env_of 1000 not_configured) (py "x") (py "web") (Some (py "brave"))
          (world_of slow_drained)).1
  = Exhausted (py "None") (py "x") [].
Proof. by vm_compute. Qed.

(** * Further properties of the engine *)

(** ** Query sanitizer: the shape of its results *)

Section SanitizerShape.

Lemma lstrip_head (s : str) (c : N) :
  head (lstrip s) = Some c → isspace c = false.
Proof.
  induction s as [|d s IH]; simpl; [done|].
  destruct (isspace d) eqn:Hd; [done|]. simpl. by intros [= <-].
Qed.

Lemma last_rev (s : str) : last (rev s) = head s.
Proof. destruct s as [|c s]; simpl; [done|]. apply last_snoc. Qed.

Lemma strip_head (s : str) (c : N) :
  head (strip s) = Some c → isspace c = false.
Proof. unfold strip. rewrite <- lstrip_rstrip. apply lstrip_head. Qed.

Lemma strip_last (s : str) (c : N) :
  last (strip s) = Some c → isspace c = false.
Proof. unfold strip, rstrip. rewrite last_rev. apply lstrip_head. Qed.

Lemma lstrip_id (s : str) :
  (∀ c, head s = Some c → isspace c = false) → lstrip s = s.
Proof.
  destruct s as [|d s]; simpl; [done|]. intros H. by rewrite (H d).
Qed.

Lemma strip_id (s : str) :
  (∀ c, head s = Some c → isspace c = false) →
  (∀ c, last s = Some c → isspace c = false) →
  strip s = s.
Proof.
  intros Hhead Hlast. unfold strip. rewrite (lstrip_id s) by done.
  unfold rstrip. rewrite lstrip_id; [apply rev_involutive|].
  intros c Hc. apply Hlast. by rewrite <- (rev_involutive s), last_rev.
Qed.

(** X1. Whatever the input, the sanitized query has at most 500
    characters, holds none of the nine denylisted characters, and neither
    starts nor ends with whitespace. *)
Theorem sanitize_query_shape (q : str) :
  length (_sanitize_query q) ≤ 500 ∧
  Forall (λ c, c ∉ dangerous) (_sanitize_query q) ∧
  (∀ c, head (_sanitize_query q) = Some c → isspace c = false) ∧
  (∀ c, last (_sanitize_query q) = Some c → isspace c = false).
Proof.
  split; [apply sanitize_query_length|].
  split; [apply sanitize_query_clean|].
  unfold _sanitize_query. destruct (str_falsy q); [done|].
  split; [apply strip_head | apply strip_last].
Qed.

(** X2. A query that already has that shape is left as it is. *)
Theorem sanitize_query_fixed (q : str) :
  length q ≤ 500 →
  Forall (λ c, c ∉ dangerous) q →
  (∀ c, head q = Some c → isspace c = false) →
  (∀ c, last q = Some c → isspace c = false) →
  _sanitize_query q = q.
Proof.
  intros Hlen Hclean Hhead Hlast. unfold _sanitize_query.
  destruct (str_falsy q) eqn:Hq; [by destruct q|].
  rewrite take_ge by done. rewrite remove_all_absent by done.
  by apply strip_id.
Qed.

End SanitizerShape.

Lemma sanitize_query_fixed_witness :
  _sanitize_query (py "OpenAI news") = py "OpenAI news".
Proof.
  apply sanitize_query_fixed.
  - vm_compute. lia.
  - apply (bool_decide_unpack (Forall (λ c, c ∉ dangerous) (py "OpenAI news"))).
    by vm_compute.
  - intros c [= <-]. reflexivity.
  - intros c [= <-]. reflexivity.
Defined.

(** ** Cache store: freshness *)

Section FreshnessFacts.
Variable E : Env.

(** The time to live [_is_cache_valid] applies. *)
Lemma is_cache_valid_ttl (cached : CacheEntry) (query : str) (w : World) :
  ∃ ttl : Q,
    (_is_cache_valid E cached query w).1
    = Qlt_bool (clock E (ticks w) - default 0 (e_timestamp cached))%Q ttl ∧
    (ttl = 300 ∨ ttl = 900 ∨ ttl = 1800 ∨ ttl = 86400)%Q ∧
    (str_falsy query = false →
       ttl = if existsb (λ kw, str_contains kw (lower E query)) trending_kw
             then 300%Q
             else if existsb (λ kw, str_contains kw (lower E query)) trans_kw
                  then 1800%Q else 86400%Q).
Proof.
  unfold _is_cache_valid, _detect_query_intent, bind, time_time, ret.
  set (trending := existsb _ trending_kw).
  set (transactional := existsb _ trans_kw).
  simpl. destruct (str_falsy query) eqn:Hq.
  - eexists. split; [done|]. split; [|intros; congruence].
    unfold cache_ttl. simpl. repeat case_decide; simpl; naive_solver.
  - destruct trending; [|destruct transactional];
      eexists; (split; [done|]); (split; [|intros _; reflexivity]);
      vm_compute; naive_solver.
Qed.

(** X3. Whatever the query and the stored type, an entry younger than 300
    seconds is valid and an entry of 86400 seconds or more is not: every
    time to live of the two tables lies between five minutes and a day. *)
Theorem cache_validity_window (cached : CacheEntry) (query : str) (w : World) :
  let age := (clock E (ticks w) - default 0 (e_timestamp cached))%Q in
  ((age < 300)%Q → (_is_cache_valid E cached query w).1 = true) ∧
  ((86400 <= age)%Q → (_is_cache_valid E cached query w).1 = false).
Proof.
  intros age.
  destruct (is_cache_valid_ttl cached query w) as (ttl & -> & Httl & _).
  fold age. split; intros Hage.
  - apply Qlt_bool_true. destruct Httl as [-> | [-> | [-> | ->]]]; lra.
  - apply Qlt_bool_false. destruct Httl as [-> | [-> | [-> | ->]]]; lra.
Qed.

(** X4. For a non-empty query the stored type plays no part: the entry is
    valid exactly while its age is below 300 seconds when the lower-cased
    query holds a trending keyword, else below 1800 seconds when it holds
    a transactional keyword, else below 86400 seconds.  The default of
    the intent table is never used. *)
Theorem cache_validity_by_intent (cached : CacheEntry) (query : str) (w : World) :
  str_falsy query = false →
  let age := (clock E (ticks w) - default 0 (e_timestamp cached))%Q in
  let ttl :=
    if existsb (λ kw, str_contains kw (lower E query)) trending_kw then 300%Q
    else if existsb (λ kw, str_contains kw (lower E query)) trans_kw then 1800%Q
    else 86400%Q in
  (_is_cache_valid E cached query w).1 = true ↔ (age < ttl)%Q.
Proof.
  intros Hq age ttl.
  destruct (is_cache_valid_ttl cached query w) as (ttl' & -> & _ & Httl).
  rewrite (Httl Hq). apply Qlt_bool_true.
Qed.

End FreshnessFacts.

Lemma cache_validity_window_witness :
  (_is_cache_valid failing_env (entry_at 1000) (py "rust book")
     (at_tick 299 (world_of fresh))).1 = true ∧
  (_is_cache_valid (env_of 87400 not_configured) (entry_at 1000) (py "rust book")
     (world_of fresh)).1 = false.
Proof.
  split.
  - apply (proj1 (cache_validity_window failing_env (entry_at 1000)
                    (py "rust book") (at_tick 299 (world_of fresh)))).
    by vm_compute.
  - apply (proj2 (cache_validity_window (env_of 87400 not_configured)
                    (entry_at 1000) (py "rust book") (world_of fresh))).
    by vm_compute.
Defined.

Lemma cache_validity_by_intent_witness :
  (_is_cache_valid failing_env (entry_at 1000) (py "OpenAI news")
     (at_tick 299 (world_of fresh))).1 = true ∧
  (_is_cache_valid failing_env (entry_at 1000) (py "OpenAI news")
     (at_tick 301 (world_of fresh))).1 ≠ true.
Proof.
  split.
  - apply (cache_validity_by_intent failing_env); [reflexivity|by vm_compute].
  - intros Hvalid.
    apply (cache_validity_by_intent failing_env) in Hvalid; [|reflexivity].
    by vm_compute in Hvalid.
Defined.

(** ** Rate limiter: unlimited providers and the refill of an empty bucket *)

Section RateLimiterMore.

Lemma py_min_le_r (a b : Q) : (py_min a b <= b)%Q.
Proof.
  unfold py_min. destruct (Qlt_bool b a) eqn:Hlt; [lra|].
  by apply Qlt_bool_false in Hlt.
Qed.

Lemma Qle_bool_false (x y : Q) : Qle_bool x y = false ↔ (y < x)%Q.
Proof.
  split.
  - intros Hle. apply Qnot_le_lt. intros H. apply Qle_bool_iff in H. congruence.
  - intros Hlt. destruct (Qle_bool x y) eqn:Hle; [|done].
    apply Qle_bool_iff in Hle. lra.
Qed.

(** X5. A provider without a bucket in the rate table is always granted:
    the instance is left as it is and the clock is not read. *)
Theorem unlimited_provider_granted (E : Env) (p : str) (w : World) :
  rate_limit (self w) !! p = None →
  _check_rate_limit E p w
  = (true, {| self := self w; ticks := ticks w; calls := calls w;
              trace := trace w ++ [EvRateCheck p] |}).
Proof.
  intros Hp. unfold _check_rate_limit, bind, emit, get_self, ret. simpl.
  by rewrite Hp.
Qed.

(** The call for a provider whose bucket and refill table are known. *)
Lemma check_rate_limit_at_known (now : Q) (p : str) (rl : Bucket)
    (lr : gmap (list N) Q) (s : NovaSearch) :
  rate_limit s !! p = Some rl → _last_refill s = Some lr →
  let level :=
    py_min (b_max rl)
           (b_tokens rl + (now - default now (lr !! p)) * b_refill_rate rl)%Q in
  let refilled := {| b_tokens := level; b_max := b_max rl;
                     b_refill_rate := b_refill_rate rl |} in
  check_rate_limit_at now p s
  = if Qle_bool 1 level
    then (true, set_rate (<[p := take_token refilled]> (rate_limit s))
                         (<[p := now]> lr) s)
    else (false, set_rate (<[p := refilled]> (rate_limit s)) (<[p := now]> lr) s).
Proof.
  intros Hrl Hlr. unfold check_rate_limit_at, check_bucket, refill.
  by rewrite Hrl, Hlr.
Qed.

(** X6. A bucket that is empty, refills one token per second and holds at
    least one token grants a call made at least one and less than two
    seconds after its last refill, and denies a second call made at the
    same reading of the clock. *)
Theorem empty_bucket_grants_once (now t0 : Q) (p : str) (rl : Bucket)
    (lr : gmap (list N) Q) (s : NovaSearch) :
  rate_limit s !! p = Some rl → _last_refill s = Some lr → lr !! p = Some t0 →
  (b_tokens rl == 0)%Q → (b_refill_rate rl == 1)%Q → (1 <= b_max rl)%Q →
  (1 <= now - t0)%Q → (now - t0 < 2)%Q →
  (check_rate_limit_at now p s).1 = true ∧
  (check_rate_limit_at now p (check_rate_limit_at now p s).2).1 = false.
Proof.
  intros Hrl Hlr Ht0 Htok Hrate Hmax Hlo Hhi.
  rewrite (check_rate_limit_at_known now p rl lr s Hrl Hlr).
  rewrite Ht0. simpl.
  set (level := py_min (b_max rl) (b_tokens rl + (now - t0) * b_refill_rate rl)).
  assert (1 <= level)%Q as Hone.
  { apply py_min_glb; [done|]. rewrite Htok, Hrate. lra. }
  assert (level < 2)%Q as Htwo.
  { eapply Qle_lt_trans; [apply py_min_le_r|]. rewrite Htok, Hrate. lra. }
  apply Qle_bool_iff in Hone as Hgrant. rewrite Hgrant. simpl.
  split; [done|].
  erewrite check_rate_limit_at_known;
    [|unfold set_rate; simpl; apply lookup_insert_eq | done].
  rewrite lookup_insert_eq. simpl.
  set (again := py_min _ _).
  assert (again < 1)%Q as Hagain.
  { eapply Qle_lt_trans; [apply py_min_le_r|].
    assert ((now - now) * b_refill_rate rl == 0)%Q as -> by ring. lra. }
  apply Qle_bool_false in Hagain. by rewrite Hagain.
Qed.

End RateLimiterMore.

Lemma unlimited_provider_granted_witness :
  (_check_rate_limit failing_env (py "bing") (world_of fresh)).1 = true ∧
  self (_check_rate_limit failing_env (py "bing") (world_of fresh)).2 = fresh.
Proof.
  rewrite (unlimited_provider_granted failing_env (py "bing") (world_of fresh));
    [split; reflexivity | reflexivity].
Defined.

Lemma empty_bucket_grants_once_witness :
  (check_rate_limit_at (2003 # 2) (py "brave") drained_at_1000).1 = true ∧
  (check_rate_limit_at (2003 # 2) (py "brave")
     (check_rate_limit_at (2003 # 2) (py "brave") drained_at_1000).2).1 = false.
Proof.
  apply (empty_bucket_grants_once (2003 # 2) 1000 (py "brave")
           {| b_tokens := 0; b_max := 60; b_refill_rate := 1 |}
           {[ py "brave" := 1000%Q ]});
    try reflexivity; by vm_compute.
Defined.

(** ** Circuit breaker: what a check and an error change *)

Section BreakerMore.
Variable E : Env.

(** A health check touches at most the [circuit_open] flag of the provider
    it is asked about. *)
Lemma is_provider_healthy_frame (p : str) (w : World) :
  let w' := (_is_provider_healthy E p w).2 in
  cache (self w') = cache (self w) ∧
  rate_limit (self w') = rate_limit (self w) ∧
  _last_refill (self w') = _last_refill (self w) ∧
  calls w' = calls w ∧
  trace w' = trace w ++ [EvHealthCheck p] ∧
  (∀ q, q ≠ p → provider_stats (self w') !! q = provider_stats (self w) !! q) ∧
  (∀ q, error_count (self w') q = error_count (self w) q).
Proof.
  unfold _is_provider_healthy, bind, emit, get_self, time_time, put_self, ret.
  simpl. destruct (provider_stats (self w) !! p) as [st|] eqn:Hst; simpl; [|done].
  destruct (circuit_open st); simpl; [|done].
  destruct (Qlt_bool 60 _); simpl; [|done].
  do 5 (split; [done|]). split.
  - intros q Hq. by rewrite lookup_insert_ne.
  - intros q. unfold error_count. simpl. rewrite lookup_insert.
    case_decide as Hq; [|done]. subst q. by rewrite Hst.
Qed.

(** A recorded error touches only the statistics of its provider. *)
Lemma record_provider_error_frame (p : str) (w : World) :
  let w' := (_record_provider_error E p w).2 in
  cache (self w') = cache (self w) ∧
  rate_limit (self w') = rate_limit (self w) ∧
  _last_refill (self w') = _last_refill (self w) ∧
  calls w' = calls w ∧
  trace w' = trace w ++ [EvRecordError p] ∧
  (∀ q, q ≠ p → provider_stats (self w') !! q = provider_stats (self w) !! q) ∧
  error_count (self w') p = S (error_count (self w) p).
Proof.
  unfold _record_provider_error, bind, emit, get_self, time_time, put_self, ret.
  simpl. destruct (decide _); simpl; (do 5 (split; [done|])); split;
    try (intros q Hq; by rewrite lookup_insert_ne);
    unfold error_count; simpl; rewrite lookup_insert_eq; simpl;
    destruct (provider_stats (self w) !! p); simpl; lia.
Qed.

(** X7. A provider without statistics, or whose circuit is closed, is
    healthy: the check answers true without reading the clock and leaves
    the instance as it is. *)
Theorem closed_circuit_is_healthy (p : str) (w : World) :
  (∀ st, provider_stats (self w) !! p = Some st → circuit_open st = false) →
  _is_provider_healthy E p w
  = (true, {| self := self w; ticks := ticks w; calls := calls w;
              trace := trace w ++ [EvHealthCheck p] |}).
Proof.
  intros Hclosed.
  unfold _is_provider_healthy, bind, emit, get_self, ret. simpl.
  destruct (provider_stats (self w) !! p) as [st|]; [|done].
  by rewrite (Hclosed st).
Qed.

(** Errors below the threshold, on a circuit that has never opened. *)
Lemma record_errors_below_threshold (n k : nat) (p : str) (w : World) :
  provider_stats (self w) !! p
  = (if decide (k = 0) then None
     else Some {| errors := k; circuit_open := false; circuit_open_time := None |}) →
  k + n < 5 → 0 < n →
  let w' := (times_m n (_record_provider_error E p) w).2 in
  provider_stats (self w') !! p
  = Some {| errors := k + n; circuit_open := false; circuit_open_time := None |} ∧
  ticks w' = ticks w.
Proof.
  revert k w. induction n as [|n IH]; intros k w Hst Hlt Hpos; [lia|].
  rewrite times_m_step.
  assert (provider_stats (self (_record_provider_error E p w).2) !! p
          = Some {| errors := S k; circuit_open := false; circuit_open_time := None |}
          ∧ ticks (_record_provider_error E p w).2 = ticks w) as [Hst1 Ht1].
  { unfold _record_provider_error, bind, emit, get_self, time_time, put_self, ret.
    simpl. rewrite Hst. case_decide as Hk; simpl.
    - subst k. try rewrite decide_False by lia. simpl. by rewrite lookup_insert_eq.
    - rewrite decide_False by lia. simpl. rewrite lookup_insert_eq.
      split; [|done]. do 2 f_equal. lia. }
  destruct n as [|n'].
  { simpl. unfold ret. simpl. rewrite Hst1. split; [|done]. do 2 f_equal. lia. }
  destruct (IH (S k) (_record_provider_error E p w).2) as [Hst' Ht']; [|lia|lia|].
  { by rewrite decide_False by lia. }
  split; [|by rewrite Ht'].
  rewrite Hst'. do 2 f_equal. lia.
Qed.

(** X8. Fewer than five errors never open the circuit: after [n] errors
    in a row, [n] from 1 to 4, against a provider without statistics, the
    count is [n], the circuit is closed, the clock has not been read, and
    the health check answers true. *)
Theorem circuit_stays_closed_below_five (n : nat) (p : str) (w : World) :
  provider_stats (self w) !! p = None → 0 < n → n < 5 →
  let w' := (times_m n (_record_provider_error E p) w).2 in
  provider_stats (self w') !! p
  = Some {| errors := n; circuit_open := false; circuit_open_time := None |} ∧
  ticks w' = ticks w ∧
  (_is_provider_healthy E p w').1 = true.
Proof.
  intros Hnone Hpos Hlt.
  destruct (record_errors_below_threshold n 0 p w) as [Hst Ht]; [done|lia|done|].
  simpl in *. split; [done|]. split; [done|].
  unfold _is_provider_healthy, bind, emit, get_self, ret. simpl.
  by rewrite Hst.
Qed.

(** X9. The error count is never cleared, so a circuit that has healed
    opens again on the first error: when the circuit of a provider with
    five errors or more has been open for more than 60 seconds, the health
    check answers true and closes it, leaving the count and the opening
    time as they were, and one recorded error then opens it again,
    stamped with the time of that error. *)
Theorem healed_circuit_reopens_on_first_error (p : str) (st : Stats)
    (opened : Q) (w : World) :
  provider_stats (self w) !! p = Some st →
  circuit_open st = true → circuit_open_time st = Some opened →
  5 ≤ errors st → (60 < clock E (ticks w) - opened)%Q →
  let probe := _is_provider_healthy E p w in
  let w' := (_record_provider_error E p probe.2).2 in
  probe.1 = true ∧
  provider_stats (self probe.2) !! p
  = Some {| errors := errors st; circuit_open := false;
            circuit_open_time := Some opened |} ∧
  provider_stats (self w') !! p
  = Some {| errors := errors st + 1; circuit_open := true;
            circuit_open_time := Some (clock E (S (ticks w))) |}.
Proof.
  intros Hst Hopen Htime Hfive Hlate probe w'. subst w' probe.
  rewrite (is_provider_healthy_open E p st w Hst Hopen).
  rewrite Htime. simpl. apply Qlt_bool_true in Hlate. rewrite Hlate. simpl.
  split; [done|]. split; [by rewrite lookup_insert_eq|].
  unfold _record_provider_error, bind, emit, get_self, time_time, put_self, ret.
  simpl. rewrite lookup_insert_eq. simpl.
  rewrite decide_True by lia. simpl. by rewrite lookup_insert_eq.
Qed.

(** X10. The provider order always starts with the primary provider,
    which is never health-checked: its statistics are not consulted and an
    open circuit does not remove it.  The rest of the order is drawn from
    the fallback providers, in their configured order, each checked once. *)
Theorem provider_order_starts_with_primary (w : World) :
  let r := _get_provider_order E w in
  ∃ rest, r.1 = primary :: rest ∧ rest `sublist_of` fallback ∧
    trace r.2 = trace w ++ [EvHealthCheck (py "google");
                            EvHealthCheck (py "duckduckgo")] ∧
    provider_stats (self r.2) !! primary = provider_stats (self w) !! primary ∧
    cache (self r.2) = cache (self w) ∧
    rate_limit (self r.2) = rate_limit (self w).
Proof.
  unfold _get_provider_order, fallback, bind. simpl healthy_fallbacks.
  unfold bind, ret.
  pose proof (is_provider_healthy_frame (py "google") w)
    as (Hc1 & Hr1 & _ & _ & Ht1 & Hs1 & _).
  destruct (_is_provider_healthy E (py "google") w) as [ok1 w1].
  pose proof (is_provider_healthy_frame (py "duckduckgo") w1)
    as (Hc2 & Hr2 & _ & _ & Ht2 & Hs2 & _).
  destruct (_is_provider_healthy E (py "duckduckgo") w1) as [ok2 w2].
  simpl in *. eexists. split; [done|].
  split.
  { destruct ok1, ok2;
      repeat first [apply sublist_nil | apply sublist_skip | apply sublist_cons]. }
  split; [by rewrite Ht2, Ht1, <- app_assoc|].
  split; [|by rewrite Hc2, Hr2].
  rewrite Hs2, Hs1; [done| |]; by vm_compute.
Qed.

(** X11. When no fallback provider has an open circuit the order is the
    primary followed by every fallback, and the instance is unchanged. *)
Theorem provider_order_all_healthy (w : World) :
  (∀ p st, p ∈ fallback → provider_stats (self w) !! p = Some st →
           circuit_open st = false) →
  let r := _get_provider_order E w in
  r.1 = primary :: fallback ∧ self r.2 = self w ∧ ticks r.2 = ticks w.
Proof.
  intros Hclosed r. subst r.
  assert (∀ p w0, p ∈ fallback → self w0 = self w →
            _is_provider_healthy E p w0
            = (true, {| self := self w0; ticks := ticks w0; calls := calls w0;
                        trace := trace w0 ++ [EvHealthCheck p] |})) as Hcheck.
  { intros p w0 Hp Hw0.
    unfold _is_provider_healthy, bind, emit, get_self, ret. simpl.
    rewrite Hw0. destruct (provider_stats (self w) !! p) as [st|] eqn:Hst; [|done].
    by rewrite (Hclosed p st Hp Hst). }
  unfold _get_provider_order, fallback, bind. simpl healthy_fallbacks.
  unfold bind, ret.
  rewrite (Hcheck (py "google") w) by (done || set_solver).
  rewrite Hcheck by (done || set_solver). done.
Qed.

End BreakerMore.

Lemma closed_circuit_is_healthy_witness :
  (_is_provider_healthy failing_env (py "google") (world_of troubled)).1 = true ∧
  self (_is_provider_healthy failing_env (py "google") (world_of troubled)).2
  = troubled.
Proof.
  rewrite (closed_circuit_is_healthy failing_env (py "google") (world_of troubled));
    [split; reflexivity|].
  intros st Hst. by vm_compute in Hst.
Defined.

Lemma circuit_stays_closed_below_five_witness :
  provider_stats
    (self (times_m 4 (_record_provider_error failing_env (py "brave"))
             (world_of fresh)).2) !! py "brave"
  = Some {| errors := 4; circuit_open := false; circuit_open_time := None |}.
Proof.
  apply (circuit_stays_closed_below_five failing_env 4 (py "brave") (world_of fresh));
    [reflexivity | lia | lia].
Defined.

Lemma healed_circuit_reopens_on_first_error_witness :
  (_is_provider_healthy failing_env (py "brave") (at_tick 62 tripped)).1 = true ∧
  provider_stats
    (self (_is_provider_healthy failing_env (py "brave") (at_tick 62 tripped)).2)
    !! py "brave"
  = Some {| errors := 5; circuit_open := false;
            circuit_open_time := Some (inject_Z 1000) |} ∧
  provider_stats
    (self (_record_provider_error failing_env (py "brave")
             (_is_provider_healthy failing_env (py "brave")
                (at_tick 62 tripped)).2).2) !! py "brave"
  = Some {| errors := 5 + 1; circuit_open := true;
            circuit_open_time := Some (clock failing_env 63) |}.
Proof.
  apply (healed_circuit_reopens_on_first_error failing_env (py "brave")
           {| errors := 5; circuit_open := true;
              circuit_open_time := Some (inject_Z 1000) |}
           (inject_Z 1000) (at_tick 62 tripped));
    [reflexivity | reflexivity | reflexivity | simpl; lia | by vm_compute].
Defined.

Lemma provider_order_all_healthy_witness :
  (_get_provider_order failing_env (world_of troubled)).1
  = [py "brave"; py "google"; py "duckduckgo"].
Proof.
  apply (provider_order_all_healthy failing_env (world_of troubled)).
  intros p st _ Hst. unfold troubled in Hst. simpl in Hst.
  apply lookup_singleton_Some in Hst as [_ <-]. reflexivity.
Defined.

(** ** The orchestrator: what a search changes *)

Section SearchEffects.
Variable E : Env.

Lemma quiet_refl (w : World) : quiet w w.
Proof. by repeat split. Qed.

Lemma quiet_trans (w1 w2 w3 : World) : quiet w1 w2 → quiet w2 w3 → quiet w1 w3.
Proof.
  intros (He1 & Hs1 & Hc1) (He2 & Hs2 & Hc2). repeat split.
  - intros q. specialize (He1 q). specialize (He2 q). lia.
  - by rewrite Hs2.
  - lia.
Qed.

Lemma steady_refl (w : World) : steady w w.
Proof. split; [done|apply quiet_refl]. Qed.

Lemma steady_trans (w1 w2 w3 : World) :
  steady w1 w2 → steady w2 w3 → steady w1 w3.
Proof.
  intros [Hc1 Hq1] [Hc2 Hq2]. split; [by rewrite Hc2|by eapply quiet_trans].
Qed.

Lemma filter_sleep_snoc (l : list event) (e : event) :
  is_sleep e = false → filter is_sleep (l ++ [e]) = filter is_sleep l.
Proof.
  intros He. rewrite filter_app, filter_cons_False, filter_nil, app_nil_r; [done|].
  rewrite He. by intros [].
Qed.

Lemma check_rate_limit_steady (p : str) (w : World) :
  steady w (_check_rate_limit E p w).2.
Proof.
  pose proof (check_rate_limit_frame E p w) as (Hs & Hc & Hcalls & Ht).
  simpl in *. split; [done|]. repeat split.
  - intros q. unfold error_count. by rewrite Hs.
  - rewrite Ht. by apply filter_sleep_snoc.
  - lia.
Qed.

Lemma is_provider_healthy_steady (p : str) (w : World) :
  steady w (_is_provider_healthy E p w).2.
Proof.
  pose proof (is_provider_healthy_frame E p w) as (Hc & _ & _ & Hcalls & Ht & _ & He).
  simpl in *. split; [done|]. repeat split.
  - intros q. by rewrite He.
  - rewrite Ht. by apply filter_sleep_snoc.
  - lia.
Qed.

Lemma record_provider_error_steady (p : str) (w : World) :
  steady w (_record_provider_error E p w).2.
Proof.
  pose proof (record_provider_error_frame E p w) as (Hc & _ & _ & Hcalls & Ht & Hq & He).
  simpl in *. split; [done|]. repeat split.
  - intros q. destruct (decide (q = p)) as [->|Hne]; [lia|].
    unfold error_count. by rewrite Hq.
  - rewrite Ht. by apply filter_sleep_snoc.
  - lia.
Qed.

Lemma search_with_provider_steady (p query search_type : str) (w : World) :
  steady w (_search_with_provider E p query search_type w).2.
Proof.
  unfold _search_with_provider, adapter_call, bind, emit, next_call, ret.
  repeat case_decide; simpl; try apply steady_refl;
    (split; [done|]); repeat split; simpl; try lia; try done;
    by apply filter_sleep_snoc.
Qed.

Lemma on_error_steady (p : str) (e : exn) (w : World) :
  ∃ w', on_error E p e w = (Next (Some e), w') ∧ steady w w'.
Proof.
  unfold on_error, bind, ret.
  pose proof (record_provider_error_steady p w) as H.
  destruct (_record_provider_error E p w) as [[] w']. by exists w'.
Qed.

(** One turn of the provider loop: either it goes on, and the cache is as
    it was, or it returns the adapter's results, stored in the cache. *)
Lemma try_provider_effect (attempt : nat) (query search_type cache_key p : str)
    (last_error : option exn) (w : World) :
  let r := try_provider E attempt query search_type cache_key p last_error w in
  quiet w r.2 ∧
  match r.1 with
  | Next _ => cache (self r.2) = cache (self w)
  | Done res =>
      ∃ results now,
        res = Found results p false query ∧ results ≠ [] ∧
        cache (self r.2)
        = stored cache_key results p search_type now (cache (self w))
  end.
Proof.
  intros r. subst r.
  destruct (try_provider E attempt query search_type cache_key p last_error w)
    as [res w'] eqn:Hrun.
  simpl. revert Hrun. unfold try_provider, bind at 1.
  pose proof (check_rate_limit_steady p w) as [Hc0 Hq0].
  destruct (_check_rate_limit E p w) as [granted w1]. simpl in Hc0, Hq0.
  destruct granted; simpl; [|unfold ret; by intros [= <- <-]].
  destruct (decide (0 < attempt)).
  { rewrite backoff_raises. unfold bind at 1. unfold ret at 1.
    destruct (on_error_steady p unused_argument w1) as (w2 & -> & Hc & Hq).
    intros [= <- <-]. split; [by eapply quiet_trans|congruence]. }
  unfold bind at 1. unfold ret at 1. unfold bind at 1.
  pose proof (search_with_provider_steady p query search_type w1) as [Hc1 Hq1].
  destruct (_search_with_provider E p query search_type w1) as [[results|e] w2];
    simpl in Hc1, Hq1.
  - destruct results as [|item results].
    { unfold ret. intros [= <- <-]. split; [by eapply quiet_trans|congruence]. }
    unfold bind, store_result, bind, time_time, get_self, emit, put_self,
      _save_cache_to_disk, emit, ret. simpl.
    intros [= <- <-]. split.
    + eapply quiet_trans; [exact Hq0|]. eapply quiet_trans; [exact Hq1|].
      repeat split; simpl; [done| |lia].
      rewrite <- app_assoc. rewrite filter_app. simpl.
      rewrite filter_cons_False by (by intros []).
      rewrite filter_cons_False by (by intros []).
      by rewrite filter_nil, app_nil_r.
    + eexists _, _. split; [done|]. split; [done|].
      unfold stored. by rewrite Hc1, Hc0.
  - destruct (on_error_steady p e w2) as (w3 & -> & Hc & Hq).
    intros [= <- <-]. split; [|congruence].
    eapply quiet_trans; [exact Hq0|]. by eapply quiet_trans.
Qed.

Lemma loop_effect_after (query search_type cache_key : str)
    (w w1 w' : World) (f : flow) :
  steady w w1 → loop_effect query search_type cache_key w1 f w' →
  loop_effect query search_type cache_key w f w'.
Proof.
  intros [Hc Hq] [Hq' Hf]. split; [by eapply quiet_trans|].
  destruct f as [e|res]; [congruence|].
  destruct Hf as (results & p & now & ? & ? & Hstored).
  exists results, p, now. by rewrite <- Hc.
Qed.

Lemma for_providers_effect (attempt : nat) (query search_type cache_key : str)
    (providers : list str) (last_error : option exn) (w : World) :
  loop_effect query search_type cache_key w
    (for_providers E attempt query search_type cache_key providers last_error w).1
    (for_providers E attempt query search_type cache_key providers last_error w).2.
Proof.
  revert last_error w. induction providers as [|p rest IH]; intros last_error w.
  - simpl. unfold ret. simpl. split; [apply quiet_refl|done].
  - simpl. unfold bind at 1 2.
    pose proof (try_provider_effect attempt query search_type cache_key p
                  last_error w) as [Hq Hf].
    destruct (try_provider E attempt query search_type cache_key p last_error w)
      as [[e|res] w1]; simpl in Hq, Hf.
    + eapply loop_effect_after; [by split|apply IH].
    + unfold ret. simpl. split; [done|].
      destruct Hf as (results & now & ? & ? & ?). by exists results, p, now.
Qed.

Lemma for_attempts_effect (attempts : list nat) (query search_type cache_key : str)
    (providers : list str) (last_error : option exn) (w : World) :
  loop_effect query search_type cache_key w
    (for_attempts E attempts query search_type cache_key providers last_error w).1
    (for_attempts E attempts query search_type cache_key providers last_error w).2.
Proof.
  revert last_error w. induction attempts as [|attempt rest IH]; intros last_error w.
  - simpl. unfold ret. simpl. split; [apply quiet_refl|done].
  - simpl. unfold bind at 1 2.
    pose proof (for_providers_effect attempt query search_type cache_key providers
                  last_error w) as [Hq Hf].
    destruct (for_providers E attempt query search_type cache_key providers
                last_error w) as [[e|res] w1]; simpl in Hq, Hf.
    + eapply loop_effect_after; [by split|apply IH].
    + unfold ret. simpl. by split.
Qed.

Lemma cache_lookup_steady (cache_key query : str) (w : World) :
  steady w (cache_lookup E cache_key query w).2.
Proof.
  unfold cache_lookup, bind, emit, get_self, _is_cache_valid, bind, time_time, ret.
  simpl. destruct (dict_get cache_key (cache (self w))) as [cached|]; simpl;
    (split; [done|]); repeat split; simpl; try done; try lia;
    by apply filter_sleep_snoc.
Qed.

(** A cache lookup answers with an entry only if the cache holds it under
    the key and it is still valid. *)
Lemma cache_lookup_hit (cache_key query : str) (w : World) (cached : CacheEntry) :
  (cache_lookup E cache_key query w).1 = Some cached →
  dict_get cache_key (cache (self w)) = Some cached.
Proof.
  unfold cache_lookup, bind, emit, get_self, _is_cache_valid, bind, time_time, ret.
  simpl. destruct (dict_get cache_key (cache (self w))) as [c|]; simpl; [|done].
  destruct (Qlt_bool _ _); [|done]. by intros [= ->].
Qed.

Lemma healthy_fallbacks_steady (ps : list str) (w : World) :
  steady w (healthy_fallbacks E ps w).2.
Proof.
  revert w. induction ps as [|p ps IH]; intros w; simpl.
  - apply steady_refl.
  - unfold bind at 1.
    pose proof (is_provider_healthy_steady p w) as H1.
    destruct (_is_provider_healthy E p w) as [ok w1]. simpl in H1.
    unfold bind. pose proof (IH w1) as H2.
    destruct (healthy_fallbacks E ps w1) as [rest w2]. simpl in *.
    by eapply steady_trans.
Qed.

Lemma get_provider_order_steady (w : World) :
  steady w (_get_provider_order E w).2.
Proof.
  unfold _get_provider_order, bind.
  pose proof (healthy_fallbacks_steady fallback w) as H.
  by destruct (healthy_fallbacks E fallback w) as [rest w1].
Qed.

(** The whole of a search: it is quiet, and the cache is as it was unless
    the result is fresh, in which case the cache holds that result. *)
Lemma search_effect (query search_type : str) (provider : option str) (w : World) :
  let q := _sanitize_query query in
  let key := _get_cache_key E q search_type in
  let r := search E query search_type provider w in
  quiet w r.2 ∧
  if is_fresh r.1 then
    ∃ results p now,
      r.1 = Found results p false q ∧ results ≠ [] ∧
      cache (self r.2) = stored key results p search_type now (cache (self w))
  else cache (self r.2) = cache (self w).
Proof.
  intros q key r. subst r.
  destruct (search E query search_type provider w) as [res w'] eqn:Hrun.
  simpl. revert Hrun. unfold search. fold q.
  destruct (str_falsy q).
  { unfold ret. intros [= <- <-]. simpl. split; [apply quiet_refl|done]. }
  fold key. unfold bind at 1.
  pose proof (cache_lookup_steady key q w) as [Hc0 Hq0].
  destruct (cache_lookup E key q w) as [[cached|] w1]; simpl in Hc0, Hq0.
  { unfold ret. intros [= <- <-]. simpl. by split. }
  unfold bind at 1.
  assert (∃ providers w2,
            match provider with
            | Some p => if str_falsy p then _get_provider_order E else ret [p]
            | None => _get_provider_order E
            end w1 = (providers, w2) ∧ steady w1 w2) as (providers & w2 & -> & Hc2 & Hq2).
  { pose proof (get_provider_order_steady w1) as Hs.
    destruct (_get_provider_order E w1) as [ps w2] eqn:Hord.
    destruct provider as [p|]; [destruct (str_falsy p)|];
      eauto using steady_refl. }
  unfold bind at 1.
  pose proof (for_attempts_effect (seq 0 3) q search_type key providers None w2)
    as [Hq3 Hf].
  destruct (for_attempts E (seq 0 3) q search_type key providers None w2)
    as [[e|r] w3]; simpl in Hq3, Hf; unfold ret; intros [= <- <-]; simpl.
  - split; [|congruence].
    eapply quiet_trans; [exact Hq0|]. by eapply quiet_trans.
  - destruct Hf as (results & p & now & -> & Hne & Hstored). simpl.
    split; [eapply quiet_trans; [exact Hq0|]; by eapply quiet_trans|].
    exists results, p, now. split; [done|]. split; [done|]. congruence.
Qed.

(** X12. A search changes the cache only when it returns a fresh result:
    after a rejected query, a cached answer or an exhausted search the
    cache is exactly as it was. *)
Theorem search_keeps_cache_unless_fresh (query search_type : str)
    (provider : option str) (w : World) :
  is_fresh (search E query search_type provider w).1 = false →
  cache (self (search E query search_type provider w).2) = cache (self w).
Proof.
  intros Hfresh.
  pose proof (search_effect query search_type provider w) as [_ H].
  simpl in H. by rewrite Hfresh in H.
Qed.

(** X13. A search never sleeps: whatever the query, the providers and the
    environment, no sleep is added to the trace.  The backoff between
    attempts never takes place. *)
Theorem search_never_sleeps (query search_type : str) (provider : option str)
    (w : World) :
  filter is_sleep (trace (search E query search_type provider w).2)
  = filter is_sleep (trace w).
Proof.
  by pose proof (search_effect query search_type provider w) as [(_ & H & _) _].
Qed.

(** X14. A search never lowers the error count of any provider: nothing
    in the engine clears or decreases it, not even a success. *)
Theorem search_never_lowers_error_counts (query search_type : str)
    (provider : option str) (w : World) (p : str) :
  error_count (self w) p
  ≤ error_count (self (search E query search_type provider w).2) p.
Proof.
  pose proof (search_effect query search_type provider w) as [(H & _) _].
  apply H.
Qed.

End SearchEffects.

(** ** The orchestrator and the cache *)

Section SearchCache.
Variable E : Env.

Lemma dict_get_set (k : str) (v : CacheEntry) (d : list (str * CacheEntry)) :
  dict_get k (dict_set k v d) = Some v.
Proof.
  induction d as [|[k' v'] d IH]; simpl.
  - by rewrite decide_True.
  - destruct (decide (k = k')) as [->|Hne]; simpl.
    + by rewrite decide_True.
    + by rewrite decide_False.
Qed.

Lemma dict_set_length (k : str) (v : CacheEntry) (d : list (str * CacheEntry)) :
  length (dict_set k v d) ≤ S (length d).
Proof.
  induction d as [|[k' v'] d IH]; simpl; [lia|].
  destruct (decide (k = k')); simpl; lia.
Qed.

Lemma dict_set_keys_in (k x : str) (v : CacheEntry) (d : list (str * CacheEntry)) :
  x ∈ (dict_set k v d).*1 → x = k ∨ x ∈ d.*1.
Proof.
  induction d as [|[k' v'] d IH]; simpl.
  - intros Hx. apply elem_of_cons in Hx as [->|Hx]; [by left|by right].
  - destruct (decide (k = k')) as [->|Hne]; simpl; intros Hx;
      apply elem_of_cons in Hx as [->|Hx].
    + by left.
    + right. apply elem_of_cons. by right.
    + right. apply elem_of_cons. by left.
    + destruct (IH Hx) as [->|Hd]; [by left|].
      right. apply elem_of_cons. by right.
Qed.

Lemma dict_set_keys (k : str) (v : CacheEntry) (d : list (str * CacheEntry)) :
  NoDup d.*1 → NoDup (dict_set k v d).*1.
Proof.
  induction d as [|[k' v'] d IH]; simpl; intros Hnd.
  - apply NoDup_singleton.
  - apply NoDup_cons in Hnd as [Hk' Hnd].
    destruct (decide (k = k')) as [->|Hne]; simpl; apply NoDup_cons.
    + done.
    + split; [|by apply IH]. intros Hin.
      apply dict_set_keys_in in Hin as [->|Hin]; done.
Qed.

Lemma evict_cache_bounded (c : list (str * CacheEntry)) :
  NoDup c.*1 →
  NoDup (_evict_cache c).*1 ∧ length (_evict_cache c) ≤ max_cache_size.
Proof.
  intros Hnd. destruct (decide (max_cache_size < length c)) as [Hover|Hunder].
  - rewrite evict_cache_over by done. split.
    + rewrite fmap_take. eapply sublist_NoDup; [|apply sublist_take].
      by rewrite (sorted_desc_perm stamp c).
    + rewrite length_take. lia.
  - rewrite evict_cache_under by lia. split; [done|lia].
Qed.

(** A search whose cache lookup finds a valid entry returns it. *)
Lemma search_on_hit (query search_type : str) (provider : option str)
    (w w1 : World) (cached : CacheEntry) :
  let q := _sanitize_query query in
  str_falsy q = false →
  cache_lookup E (_get_cache_key E q search_type) q w = (Some cached, w1) →
  search E query search_type provider w
  = (Found (e_results cached) (e_provider cached) true q, w1).
Proof.
  intros q Hq Hhit. unfold search. fold q. rewrite Hq.
  unfold bind at 1. by rewrite Hhit.
Qed.

(** X15. A valid cache entry short-circuits the search: the entry's
    results and provider are returned tagged as cached, and the only
    things that happen are the lookup and one reading of the clock.  No
    provider is health-checked, rate-limited or called. *)
Theorem cache_hit_short_circuits (query search_type : str)
    (provider : option str) (w : World) (cached : CacheEntry) :
  let q := _sanitize_query query in
  let key := _get_cache_key E q search_type in
  str_falsy q = false →
  dict_get key (cache (self w)) = Some cached →
  (_is_cache_valid E cached q w).1 = true →
  search E query search_type provider w
  = (Found (e_results cached) (e_provider cached) true q,
     {| self := self w; ticks := S (ticks w); calls := calls w;
        trace := trace w ++ [EvCacheLookup key] |}).
Proof.
  intros q key Hq Hget Hvalid. subst key q. apply search_on_hit; [done|].
  unfold cache_lookup, bind, emit, get_self. simpl. rewrite Hget.
  unfold _is_cache_valid, bind, time_time, ret in *. simpl in *.
  by rewrite Hvalid.
Qed.

(** X16. A cached answer is always an entry of the cache: when a search
    returns a result tagged as cached, the cache holds an entry under the
    key of the sanitized query with exactly those results and that
    provider, and the instance is unchanged. *)
Theorem cached_answer_is_in_cache (query search_type : str)
    (provider : option str) (w : World) :
  let q := _sanitize_query query in
  let key := _get_cache_key E q search_type in
  let r := search E query search_type provider w in
  is_cached r.1 = true →
  ∃ cached, dict_get key (cache (self w)) = Some cached ∧
    r.1 = Found (e_results cached) (e_provider cached) true q ∧
    self r.2 = self w.
Proof.
  intros q key r Hcached. subst r.
  destruct (search E query search_type provider w) as [res w'] eqn:Hrun.
  simpl in *. revert Hrun. unfold search. fold q. fold key.
  destruct (str_falsy q).
  { unfold ret. intros [= <- <-]. done. }
  unfold bind at 1.
  pose proof (cache_lookup_hit E key q w) as Hhit.
  assert (self (cache_lookup E key q w).2 = self w) as Hself.
  { unfold cache_lookup, bind, emit, get_self, _is_cache_valid, bind, time_time, ret.
    simpl. by destruct (dict_get key (cache (self w))). }
  destruct (cache_lookup E key q w) as [[cached|] w1]; simpl in Hhit, Hself.
  { unfold ret. intros [= <- <-]. exists cached. by rewrite (Hhit cached). }
  unfold bind at 1.
  destruct (match provider with
            | Some p => if str_falsy p then _get_provider_order E else ret [p]
            | None => _get_provider_order E
            end w1) as [providers w2].
  unfold bind at 1.
  pose proof (for_attempts_effect E (seq 0 3) q search_type key providers None w2)
    as [_ Hf].
  destruct (for_attempts E (seq 0 3) q search_type key providers None w2)
    as [[e|r] w3]; simpl in Hf; unfold ret; intros [= <- <-].
  - done.
  - destruct Hf as (results & p & now & -> & _). done.
Qed.

(** X17. Store and look up: after a search has returned a fresh result on
    an instance whose cache was below its limit, the cache holds that
    result under the key of the query, and the same search made while the
    entry is younger than 300 seconds returns the same results and
    provider tagged as cached, whichever provider is asked for, without
    calling any adapter. *)
Theorem fresh_result_is_served_again (query search_type : str)
    (provider : option str) (w w1 : World) (results : list ResultItem)
    (p q : str) :
  search E query search_type provider w = (Found results p false q, w1) →
  length (cache (self w)) < max_cache_size →
  ∃ now,
    dict_get (_get_cache_key E q search_type) (cache (self w1))
    = Some {| e_results := results; e_provider := p; e_timestamp := Some now;
              e_type := search_type |} ∧
    ∀ provider' w2,
      self w2 = self w1 → (clock E (ticks w2) - now < 300)%Q →
      (search E query search_type provider' w2).1 = Found results p true q ∧
      calls (search E query search_type provider' w2).2 = calls w2.
Proof.
  intros Hrun Hroom.
  pose proof (search_effect E query search_type provider w) as [_ Heff].
  simpl in Heff. rewrite Hrun in Heff. simpl in Heff.
  destruct Heff as (results' & p' & now & Heq & _ & Hcache).
  injection Heq as -> -> ->.
  set (sq := _sanitize_query query) in *.
  set (key := _get_cache_key E sq search_type) in *.
  set (entry := {| e_results := results'; e_provider := p';
                   e_timestamp := Some now; e_type := search_type |}).
  assert (dict_get key (cache (self w1)) = Some entry) as Hget.
  { rewrite Hcache. unfold stored. rewrite evict_cache_under.
    - apply dict_get_set.
    - pose proof (dict_set_length key entry (cache (self w))). fold entry. lia. }
  assert (str_falsy sq = false) as Hq.
  { destruct (str_falsy sq) eqn:Hq; [|done].
    unfold search in Hrun. fold sq in Hrun. by rewrite Hq in Hrun. }
  exists now. split; [done|].
  intros provider' w2 Hself Hyoung.
  assert ((_is_cache_valid E entry sq w2).1 = true) as Hvalid.
  { destruct (is_cache_valid_ttl E entry sq w2) as (ttl & -> & Httl & _).
    apply Qlt_bool_true. simpl.
    destruct Httl as [-> | [-> | [-> | ->]]]; lra. }
  assert (cache_lookup E key sq w2
          = (Some entry, {| self := self w2; ticks := S (ticks w2);
                            calls := calls w2;
                            trace := trace w2 ++ [EvCacheLookup key] |})) as Hhit.
  { unfold cache_lookup, bind, emit, get_self. simpl. rewrite Hself, Hget.
    unfold _is_cache_valid, bind, time_time, ret in *. simpl in *.
    by rewrite Hvalid. }
  by rewrite (search_on_hit query search_type provider' w2 _ entry Hq Hhit).
Qed.

(** X18. A search keeps the cache a dictionary within its bound: keys
    stay distinct, a cache that was within the limit of 1000 entries stays
    within it, and after a fresh result the cache is within the limit
    whatever its size was before. *)
Theorem search_keeps_cache_bounded (query search_type : str)
    (provider : option str) (w : World) :
  NoDup (cache (self w)).*1 →
  let r := search E query search_type provider w in
  NoDup (cache (self r.2)).*1 ∧
  (length (cache (self w)) ≤ 1000 → length (cache (self r.2)) ≤ 1000) ∧
  (is_fresh r.1 = true → length (cache (self r.2)) ≤ 1000).
Proof.
  intros Hnd r. subst r.
  pose proof (search_effect E query search_type provider w) as [_ Heff].
  simpl in Heff.
  destruct (is_fresh (search E query search_type provider w).1).
  - destruct Heff as (results & p & now & _ & _ & ->). unfold stored.
    destruct (evict_cache_bounded
                (dict_set (_get_cache_key E (_sanitize_query query) search_type)
                   {| e_results := results; e_provider := p;
                      e_timestamp := Some now; e_type := search_type |}
                   (cache (self w)))) as [Hnd' Hlen].
    { by apply dict_set_keys. }
    done.
  - rewrite Heff. done.
Qed.

End SearchCache.

Lemma search_keeps_cache_unless_fresh_witness :
  is_fresh empty_run.1 = false ∧ cache (self empty_run.2) = [].
Proof.
  split; [by vm_compute|].
  apply (search_keeps_cache_unless_fresh (env_of 1000 (λ _ _ _, Return []))
           (py "x") (py "web") (Some (py "brave")) (world_of fresh)).
  by vm_compute.
Defined.

Lemma cache_hit_short_circuits_witness :
  search tracked_env (py "OpenAI") (py "web") None after_tracked_run
  = (Found [tracked_item] (py "brave") true (py "OpenAI"),
     {| self := self after_tracked_run; ticks := 101;
        calls := calls after_tracked_run;
        trace := trace after_tracked_run
                 ++ [EvCacheLookup (_get_cache_key tracked_env (py "OpenAI") (py "web"))] |}).
Proof.
  apply (cache_hit_short_circuits tracked_env (py "OpenAI") (py "web") None
           after_tracked_run tracked_entry); by vm_compute.
Defined.

Lemma cached_answer_is_in_cache_witness :
  ∃ cached,
    dict_get (_get_cache_key tracked_env (py "OpenAI") (py "web"))
             (cache (self after_tracked_run)) = Some cached ∧
    (search tracked_env (py "OpenAI") (py "web") None after_tracked_run).1
    = Found (e_results cached) (e_provider cached) true (py "OpenAI") ∧
    self (search tracked_env (py "OpenAI") (py "web") None after_tracked_run).2
    = self after_tracked_run.
Proof.
  apply (cached_answer_is_in_cache tracked_env (py "OpenAI") (py "web") None
           after_tracked_run).
  by vm_compute.
Defined.

Lemma fresh_result_is_served_again_witness :
  (search tracked_env (py "OpenAI") (py "web") (Some (py "google"))
     after_tracked_run).1
  = Found [tracked_item] (py "brave") true (py "OpenAI").
Proof.
  destruct (fresh_result_is_served_again tracked_env (py "OpenAI") (py "web")
              (Some (py "brave")) (world_of troubled) tracked_run.2
              [tracked_item] (py "brave") (py "OpenAI"))
    as (now & Hget & Hagain).
  - by vm_compute.
  - unfold max_cache_size. simpl. lia.
  - assert (now = inject_Z 1001) as ->.
    { vm_compute in Hget. injection Hget as <-. reflexivity. }
    destruct (Hagain (Some (py "google")) after_tracked_run) as [Hserved _];
      [by vm_compute | by vm_compute | exact Hserved].
Defined.

Lemma search_keeps_cache_bounded_witness :
  NoDup (cache (self tracked_run.2)).*1 ∧
  length (cache (self tracked_run.2)) ≤ 1000.
Proof.
  destruct (search_keeps_cache_bounded tracked_env (py "OpenAI") (py "web")
              (Some (py "brave")) (world_of troubled)) as (Hnd & Hlen & _).
  - apply NoDup_nil_2.
  - split; [exact Hnd|]. apply Hlen. simpl. lia.
Defined.

(** ** The orchestrator: unknown providers and adapter calls *)

Section SearchProviders.
Variable E : Env.

(** A provider name that is none of the three adapters raises without
    calling anything. *)
Lemma search_with_unknown_provider (p query search_type : str) (w : World) :
  p ∉ adapter_names →
  _search_with_provider E p query search_type w
  = (Raise (Exn (py "Exception") (py "Unknown provider: " ++ p)), w).
Proof.
  intros Hp. unfold _search_with_provider.
  rewrite !decide_False; [done| | |];
    intros ->; apply Hp; unfold adapter_names; set_solver.
Qed.

Lemma on_error_run (p : str) (e : exn) (w : World) :
  on_error E p e w = (Next (Some e), (_record_provider_error E p w).2).
Proof.
  unfold on_error, bind, ret. by destruct (_record_provider_error E p w) as [[] w'].
Qed.

Lemma for_providers_single (attempt : nat) (query search_type cache_key p : str)
    (last_error : option exn) (w : World) :
  for_providers E attempt query search_type cache_key [p] last_error w
  = try_provider E attempt query search_type cache_key p last_error w.
Proof.
  simpl. unfold bind, ret.
  by destruct (try_provider E attempt query search_type cache_key p last_error w)
    as [[e|r] w'].
Qed.

(** A turn for a provider that has neither a bucket nor an adapter. *)
Lemma try_unknown_provider (attempt : nat) (query search_type cache_key p : str)
    (last_error : option exn) (w : World) :
  rate_limit (self w) !! p = None → p ∉ adapter_names →
  ∃ e w',
    try_provider E attempt query search_type cache_key p last_error w
    = (Next (Some e), w') ∧
    (0 < attempt → e = unused_argument) ∧
    rate_limit (self w') = rate_limit (self w) ∧
    error_count (self w') p = S (error_count (self w) p) ∧
    calls w' = calls w ∧ ticks w ≤ ticks w'.
Proof.
  intros Hrate Hp. unfold try_provider, bind at 1.
  unfold _check_rate_limit, bind, emit, get_self, ret. simpl. rewrite Hrate.
  simpl.
  set (w1 := {| self := self w; ticks := ticks w; calls := calls w;
                trace := trace w ++ [EvRateCheck p] |}).
  assert (∀ e, ∃ w', on_error E p e w1 = (Next (Some e), w') ∧
            rate_limit (self w') = rate_limit (self w) ∧
            error_count (self w') p = S (error_count (self w) p) ∧
            calls w' = calls w ∧ ticks w ≤ ticks w') as Herr.
  { intros e. rewrite on_error_run. eexists. split; [done|].
    pose proof (record_provider_error_frame E p w1) as (_ & Hr & _ & Hc & _ & _ & He).
    simpl in *. repeat split; try done.
    unfold _record_provider_error, bind, emit, get_self, time_time, put_self, ret.
    simpl. destruct (decide _); simpl; lia. }
  destruct (decide (0 < attempt)).
  - rewrite backoff_raises.
    destruct (Herr unused_argument) as (w' & Hrun & ?).
    exists unused_argument, w'. split; [exact Hrun|]. by split.
  - rewrite (search_with_unknown_provider p query search_type w1 Hp).
    destruct (Herr (Exn (py "Exception") (py "Unknown provider: " ++ p)))
      as (w' & Hrun & ?).
    eexists _, w'. split; [exact Hrun|]. split; [lia|done].
Qed.

(** X19. Asking for a provider that has neither an adapter nor a bucket
    is not rejected up front: on a cache miss the search runs its three
    attempts, records three errors against that name, calls no adapter,
    and reports the [TypeError] of the backoff computation rather than
    [Unknown provider]. *)
Theorem unknown_provider_exhausts (query search_type p : str) (w : World) :
  let q := _sanitize_query query in
  let key := _get_cache_key E q search_type in
  str_falsy q = false → str_falsy p = false →
  dict_get key (cache (self w)) = None →
  rate_limit (self w) !! p = None → p ∉ adapter_names →
  let r := search E query search_type (Some p) w in
  r.1 = Exhausted (exn_msg unused_argument) q [] ∧
  error_count (self r.2) p = error_count (self w) p + 3 ∧
  calls r.2 = calls w.
Proof.
  intros q key Hq Hp Hmiss Hrate Hname r. subst r.
  destruct (search E query search_type (Some p) w) as [res w'] eqn:Hrun.
  simpl. revert Hrun.
  unfold search. fold q. rewrite Hq. fold key. rewrite Hp.
  unfold bind at 1. unfold cache_lookup, bind at 1, emit, get_self, bind at 1.
  cbn [self]. rewrite Hmiss. unfold ret at 1. unfold bind at 1. unfold ret at 1.
  change (seq 0 3) with [0; 1; 2]. cbn [for_attempts].
  set (w0 := {| self := self w; ticks := ticks w; calls := calls w;
                trace := trace w ++ [EvCacheLookup key] |}).
  change (rate_limit (self w0) !! p = None) in Hrate.
  unfold bind at 1. unfold bind at 1. rewrite for_providers_single.
  destruct (try_unknown_provider 0 q search_type key p None w0 Hrate Hname)
    as (e0 & w1 & -> & _ & Hr1 & He1 & Hc1 & _).
  unfold bind at 1. rewrite for_providers_single.
  rewrite <- Hr1 in Hrate.
  destruct (try_unknown_provider 1 q search_type key p (Some e0) w1 Hrate Hname)
    as (e1 & w2 & -> & _ & Hr2 & He2 & Hc2 & _).
  unfold bind at 1. rewrite for_providers_single.
  rewrite <- Hr2 in Hrate.
  destruct (try_unknown_provider 2 q search_type key p (Some e1) w2 Hrate Hname)
    as (e2 & w3 & -> & Hmsg & Hr3 & He3 & Hc3 & _).
  unfold ret. intros [= <- <-]. simpl. rewrite (Hmsg ltac:(lia)).
  subst w0. simpl in *.
  split; [done|]. split; [|lia].
  rewrite He3, He2, He1. lia.
Qed.

Lemma try_provider_calls (attempt : nat) (query search_type cache_key p : str)
    (last_error : option exn) (w : World) :
  calls (try_provider E attempt query search_type cache_key p last_error w).2
  ≤ calls w + (if decide (0 < attempt) then 0 else 1).
Proof.
  destruct (try_provider E attempt query search_type cache_key p last_error w)
    as [res w'] eqn:Hrun.
  simpl. revert Hrun. unfold try_provider, bind at 1.
  pose proof (check_rate_limit_frame E p w) as (_ & _ & Hc0 & _).
  destruct (_check_rate_limit E p w) as [granted w1]. simpl in Hc0.
  destruct granted; simpl; [|unfold ret; intros [= <- <-]; lia].
  destruct (decide (0 < attempt)).
  { rewrite backoff_raises. unfold bind at 1. unfold ret at 1.
    rewrite on_error_run. intros [= <- <-].
    pose proof (record_provider_error_frame E p w1) as (_ & _ & _ & Hc & _).
    simpl in Hc. lia. }
  unfold bind at 1. unfold ret at 1. unfold bind at 1.
  assert (calls (_search_with_provider E p query search_type w1).2 ≤ S (calls w1))
    as Hc1.
  { unfold _search_with_provider, adapter_call, bind, emit, next_call, ret.
    repeat case_decide; simpl; lia. }
  destruct (_search_with_provider E p query search_type w1) as [[results|e] w2];
    simpl in Hc1.
  - destruct results as [|item results].
    { unfold ret. intros [= <- <-]. lia. }
    unfold bind, store_result, bind, time_time, get_self, emit, put_self,
      _save_cache_to_disk, emit, ret. simpl.
    intros [= <- <-]. simpl. lia.
  - rewrite on_error_run. intros [= <- <-].
    pose proof (record_provider_error_frame E p w2) as (_ & _ & _ & Hc & _).
    simpl in Hc. lia.
Qed.

Lemma for_providers_calls (attempt : nat) (query search_type cache_key : str)
    (providers : list str) (last_error : option exn) (w : World) :
  calls (for_providers E attempt query search_type cache_key providers
           last_error w).2
  ≤ calls w + (if decide (0 < attempt) then 0 else length providers).
Proof.
  revert last_error w. induction providers as [|p rest IH]; intros last_error w.
  - simpl. destruct (decide _); lia.
  - simpl for_providers. unfold bind at 1.
    pose proof (try_provider_calls attempt query search_type cache_key p
                  last_error w) as H1.
    destruct (try_provider E attempt query search_type cache_key p last_error w)
      as [[e|res] w1]; simpl in H1.
    + specialize (IH e w1). simpl length. destruct (decide (0 < attempt)); lia.
    + unfold ret. simpl. destruct (decide (0 < attempt)); lia.
Qed.

Lemma for_attempts_calls_later (attempts : list nat)
    (query search_type cache_key : str) (providers : list str)
    (last_error : option exn) (w : World) :
  Forall (λ a, 0 < a) attempts →
  calls (for_attempts E attempts query search_type cache_key providers
           last_error w).2 ≤ calls w.
Proof.
  intros Hlater. revert last_error w.
  induction Hlater as [|attempt rest Ha _ IH]; intros last_error w; simpl.
  - done.
  - unfold bind at 1.
    pose proof (for_providers_calls attempt query search_type cache_key providers
                  last_error w) as H1.
    rewrite decide_True in H1 by done.
    destruct (for_providers E attempt query search_type cache_key providers
                last_error w) as [[e|res] w1]; simpl in H1.
    + specialize (IH e w1). lia.
    + unfold ret. simpl. lia.
Qed.

Lemma healthy_fallbacks_count (ps : list str) (w : World) :
  length (healthy_fallbacks E ps w).1 ≤ length ps ∧
  calls (healthy_fallbacks E ps w).2 = calls w.
Proof.
  revert w. induction ps as [|p ps IH]; intros w; simpl; [done|].
  unfold bind.
  pose proof (is_provider_healthy_frame E p w) as (_ & _ & _ & Hc & _).
  destruct (_is_provider_healthy E p w) as [ok w1]. simpl in Hc.
  destruct (IH w1) as [Hlen Hcalls].
  destruct (healthy_fallbacks E ps w1) as [rest w2]. unfold ret. simpl in *.
  split; [destruct ok; simpl; lia|lia].
Qed.

(** The number of adapter calls of a whole search. *)
Lemma search_calls_bound (query search_type : str)
    (provider : option str) (w : World) :
  let r := search E query search_type provider w in
  calls r.2 ≤ calls w + 3 ∧
  (∀ p, provider = Some p → str_falsy p = false → calls r.2 ≤ calls w + 1).
Proof.
  intros r. subst r.
  destruct (search E query search_type provider w) as [res w'] eqn:Hrun.
  simpl. revert Hrun. unfold search.
  set (q := _sanitize_query query). set (key := _get_cache_key E q search_type).
  destruct (str_falsy q).
  { unfold ret. intros [= <- <-]. split; [lia|intros; lia]. }
  unfold bind at 1.
  assert (calls (cache_lookup E key q w).2 = calls w) as Hc0.
  { unfold cache_lookup, bind, emit, get_self, _is_cache_valid, bind, time_time, ret.
    simpl. by destruct (dict_get key (cache (self w))). }
  destruct (cache_lookup E key q w) as [[cached|] w1]; simpl in Hc0.
  { unfold ret. intros [= <- <-]. split; [lia|intros; lia]. }
  unfold bind at 1.
  assert (∃ providers w2,
            match provider with
            | Some p => if str_falsy p then _get_provider_order E else ret [p]
            | None => _get_provider_order E
            end w1 = (providers, w2) ∧ calls w2 = calls w1 ∧
            length providers ≤ 3 ∧
            (∀ p, provider = Some p → str_falsy p = false → length providers = 1))
    as (providers & w2 & -> & Hc2 & Hlen & Hone).
  { assert (∃ ps w2, _get_provider_order E w1 = (ps, w2) ∧ calls w2 = calls w1 ∧
              length ps ≤ 3) as (ps & w2 & Hord & Hc & Hl).
    { unfold _get_provider_order, bind.
      destruct (healthy_fallbacks_count fallback w1) as [Hl Hc].
      destruct (healthy_fallbacks E fallback w1) as [rest w2]. simpl in *.
      unfold ret. eexists _, _. split; [done|]. split; [done|]. simpl. lia. }
    destruct provider as [p|]; [destruct (str_falsy p) eqn:Hp|].
    - exists ps, w2. repeat split; try done. intros p' [= <-]. congruence.
    - exists [p], w1. unfold ret. repeat split; simpl; try done; lia.
    - exists ps, w2. repeat split; done. }
  unfold bind at 1. change (seq 0 3) with [0; 1; 2]. cbn [for_attempts].
  unfold bind at 1.
  pose proof (for_providers_calls 0 q search_type key providers None w2) as H0.
  rewrite decide_False in H0 by lia.
  destruct (for_providers E 0 q search_type key providers None w2)
    as [[e|r] w3]; simpl in H0.
  - pose proof (for_attempts_calls_later [1; 2] q search_type key providers e w3)
      as Hlater.
    destruct (for_attempts E [1; 2] q search_type key providers e w3)
      as [[e'|r] w4] eqn:Hrest; simpl in Hlater;
      cbn [for_attempts] in Hrest; rewrite Hrest;
      unfold ret; intros [= <- <-];
      (assert (calls w4 ≤ calls w3) by (apply Hlater; repeat constructor; lia));
      (split; [lia|]); intros p Hp Hf; rewrite (Hone p Hp Hf) in H0; lia.
  - unfold ret. intros [= <- <-].
    split; [lia|]. intros p Hp Hf. rewrite (Hone p Hp Hf) in H0. lia.
Qed.

Lemma filter_adapter_snoc (l : list event) (e : event) :
  is_adapter_call e = false →
  filter is_adapter_call (l ++ [e]) = filter is_adapter_call l.
Proof.
  intros He. rewrite filter_app, filter_cons_False, filter_nil, app_nil_r; [done|].
  rewrite He. by intros [].
Qed.

(** A turn of the provider loop on an attempt after the first goes on to
    the next provider without an adapter call. *)
Lemma try_provider_later (attempt : nat) (query search_type cache_key p : str)
    (last_error : option exn) (w : World) :
  0 < attempt →
  (∃ e, (try_provider E attempt query search_type cache_key p last_error w).1
        = Next e) ∧
  calls (try_provider E attempt query search_type cache_key p last_error w).2
  = calls w ∧
  filter is_adapter_call
    (trace (try_provider E attempt query search_type cache_key p last_error w).2)
  = filter is_adapter_call (trace w).
Proof.
  intros Hlater.
  destruct (try_provider E attempt query search_type cache_key p last_error w)
    as [res w'] eqn:Hrun.
  simpl. revert Hrun. unfold try_provider, bind at 1.
  pose proof (check_rate_limit_frame E p w) as (_ & _ & Hc0 & Ht0).
  destruct (_check_rate_limit E p w) as [granted w1]. simpl in Hc0, Ht0.
  destruct granted; simpl.
  - destruct (decide (0 < attempt)); [|lia].
    rewrite backoff_raises. unfold bind at 1. unfold ret at 1.
    rewrite on_error_run. intros [= <- <-].
    pose proof (record_provider_error_frame E p w1) as (_ & _ & _ & Hc & Ht & _).
    simpl in Hc, Ht. split; [by eexists|]. split; [lia|].
    rewrite Ht, Ht0. by rewrite !filter_adapter_snoc.
  - unfold ret. intros [= <- <-]. split; [by eexists|]. split; [done|].
    rewrite Ht0. by apply filter_adapter_snoc.
Qed.

Lemma for_providers_later (attempt : nat) (query search_type cache_key : str)
    (providers : list str) (last_error : option exn) (w : World) :
  0 < attempt →
  calls (for_providers E attempt query search_type cache_key providers
           last_error w).2 = calls w ∧
  filter is_adapter_call
    (trace (for_providers E attempt query search_type cache_key providers
              last_error w).2)
  = filter is_adapter_call (trace w).
Proof.
  intros Hlater. revert last_error w.
  induction providers as [|p rest IH]; intros last_error w; [done|].
  simpl for_providers. unfold bind.
  destruct (try_provider_later attempt query search_type cache_key p last_error w
              Hlater) as ([e He] & Hc & Ht).
  destruct (try_provider E attempt query search_type cache_key p last_error w)
    as [f w1]. simpl in He, Hc, Ht. subst f.
  destruct (IH e w1) as [Hc' Ht']. by rewrite Hc', Ht'.
Qed.

Lemma for_attempts_later (attempts : list nat)
    (query search_type cache_key : str) (providers : list str)
    (last_error : option exn) (w : World) :
  Forall (λ a, 0 < a) attempts →
  calls (for_attempts E attempts query search_type cache_key providers
           last_error w).2 = calls w ∧
  filter is_adapter_call
    (trace (for_attempts E attempts query search_type cache_key providers
              last_error w).2)
  = filter is_adapter_call (trace w).
Proof.
  intros Hlater. revert last_error w.
  induction Hlater as [|attempt rest Ha _ IH]; intros last_error w; [done|].
  simpl for_attempts. unfold bind.
  destruct (for_providers_later attempt query search_type cache_key providers
              last_error w Ha) as [Hc Ht].
  destruct (for_providers E attempt query search_type cache_key providers
              last_error w) as [[e|res] w1]; simpl in Hc, Ht; [|done].
  destruct (IH e w1) as [Hc' Ht']. by rewrite Hc', Ht'.
Qed.

(** X20. Retries never reach an adapter.  On every attempt after the
    first the provider loop, whatever the providers and the world it
    starts from, makes no adapter call: the call counter and the adapter
    calls of the trace are as before.  The three attempts of a search
    therefore make exactly the adapter calls of the provider loop of the
    first attempt: every adapter call of a search belongs to the first
    attempt.  So a search makes at most three of them, one for each
    provider of the order, and at most one when a provider is asked for
    by name. *)
Theorem search_calls_adapters_once (query search_type : str)
    (provider : option str) (w : World) :
  (∀ attempt q cache_key providers last_error w1,
     0 < attempt →
     calls (for_providers E attempt q search_type cache_key providers
              last_error w1).2 = calls w1 ∧
     filter is_adapter_call
       (trace (for_providers E attempt q search_type cache_key providers
                 last_error w1).2)
     = filter is_adapter_call (trace w1)) ∧
  (∀ q cache_key providers last_error w1,
     calls (for_attempts E (seq 0 3) q search_type cache_key providers
              last_error w1).2
     = calls (for_providers E 0 q search_type cache_key providers
                last_error w1).2 ∧
     filter is_adapter_call
       (trace (for_attempts E (seq 0 3) q search_type cache_key providers
                 last_error w1).2)
     = filter is_adapter_call
         (trace (for_providers E 0 q search_type cache_key providers
                   last_error w1).2)) ∧
  let r := search E query search_type provider w in
  calls r.2 ≤ calls w + 3 ∧
  (∀ p, provider = Some p → str_falsy p = false → calls r.2 ≤ calls w + 1).
Proof.
  split; [|split; [|apply search_calls_bound]].
  - intros attempt q cache_key providers last_error w1 Hlater.
    by apply for_providers_later.
  - intros q cache_key providers last_error w1.
    change (seq 0 3) with (0 :: [1; 2]).
    assert (Forall (λ a, 0 < a) [1; 2]) as Hrest by (repeat constructor; lia).
    revert Hrest. generalize [1; 2]. intros rest Hrest.
    simpl for_attempts. unfold bind, ret.
    destruct (for_providers E 0 q search_type cache_key providers last_error w1)
      as [[e|res] w2]; simpl; [|done].
    by apply for_attempts_later.
Qed.

End SearchProviders.

(** ** The wrappers: [semantic_search] and [clear_cache] *)

Section Wrappers.
Variable E : Env.

(** The error results of a search carry no results. *)
Lemma search_error_has_no_results (query search_type : str)
    (provider : option str) (w : World) :
  match (search E query search_type provider w).1 with
  | Rejected _ results => results = []
  | Exhausted _ _ results => results = []
  | Found _ _ _ _ => True
  end.
Proof.
  destruct (search E query search_type provider w) as [res w'] eqn:Hrun.
  simpl. revert Hrun. unfold search.
  set (q := _sanitize_query query). set (key := _get_cache_key E q search_type).
  destruct (str_falsy q); [unfold ret; by intros [= <- <-]|].
  unfold bind at 1.
  destruct (cache_lookup E key q w) as [[cached|] w1];
    [unfold ret; by intros [= <- <-]|].
  unfold bind at 1.
  destruct (match provider with
            | Some p => if str_falsy p then _get_provider_order E else ret [p]
            | None => _get_provider_order E
            end w1) as [providers w2].
  unfold bind at 1.
  pose proof (for_attempts_effect E (seq 0 3) q search_type key providers None w2)
    as [_ Hf].
  destruct (for_attempts E (seq 0 3) q search_type key providers None w2)
    as [[e|r] w3]; simpl in Hf; unfold ret; intros [= <- <-]; [done|].
  by destruct Hf as (results & p & now & -> & _).
Qed.

(** X21. [semantic_search] is a web search with the default providers
    whose errors are dropped: it leaves the world as that search does,
    hands back the query as it was given, not sanitized, and when the
    search ends in an error it answers with no results and the provider
    [unknown], without any error field. *)
Theorem semantic_search_drops_errors (query : str) (w : World) :
  let b := search E query (py "web") None w in
  let r := semantic_search E query w in
  r.2 = b.2 ∧ s_query r.1 = query ∧ s_semantic r.1 = true ∧
  match b.1 with
  | Found results p _ _ => s_results r.1 = results ∧ s_provider r.1 = p
  | _ => s_results r.1 = [] ∧ s_provider r.1 = py "unknown"
  end.
Proof.
  intros b r. subst b r. unfold semantic_search, bind, ret.
  pose proof (search_error_has_no_results query (py "web") None w) as Hshape.
  destruct (search E query (py "web") None w) as [[e rs|rs p c q|e q rs] w'];
    simpl in *; by subst.
Qed.

(** On an empty cache no search is answered from the cache. *)
Lemma search_on_empty_cache (query search_type : str) (provider : option str)
    (w : World) :
  cache (self w) = [] →
  is_cached (search E query search_type provider w).1 = false.
Proof.
  intros Hempty.
  destruct (search E query search_type provider w) as [res w1] eqn:Hrun.
  simpl. revert Hrun. unfold search.
  set (q := _sanitize_query query). set (key := _get_cache_key E q search_type).
  destruct (str_falsy q); [unfold ret; by intros [= <- <-]|].
  unfold bind at 1. unfold cache_lookup, bind at 1, emit, get_self, bind at 1.
  cbn [self]. rewrite Hempty. cbn [dict_get]. unfold ret at 1. unfold bind at 1.
  set (w0 := {| self := self w; ticks := ticks w; calls := calls w;
                trace := trace w ++ [EvCacheLookup key] |}).
  destruct (match provider with
            | Some p => if str_falsy p then _get_provider_order E else ret [p]
            | None => _get_provider_order E
            end w0) as [providers w2].
  unfold bind at 1.
  pose proof (for_attempts_effect E (seq 0 3) q search_type key providers None w2)
    as [_ Hf].
  destruct (for_attempts E (seq 0 3) q search_type key providers None w2)
    as [[e|r] w3]; simpl in Hf; unfold ret; intros [= <- <-]; [done|].
  by destruct Hf as (results & p & now & -> & _).
Qed.

(** X22. After [clear_cache] no search is answered from the cache, and
    clearing touches neither the circuit-breaker table nor the buckets. *)
Theorem clear_cache_forgets (query search_type : str) (provider : option str)
    (w : World) :
  let w' := (clear_cache w).2 in
  is_cached (search E query search_type provider w').1 = false ∧
  cache (self w') = [] ∧
  provider_stats (self w') = provider_stats (self w) ∧
  rate_limit (self w') = rate_limit (self w) ∧
  _last_refill (self w') = _last_refill (self w).
Proof.
  intros w'. subst w'. unfold clear_cache, bind, get_self, put_self. simpl.
  split; [|done]. by apply search_on_empty_cache.
Qed.

End Wrappers.

(** ** Cache store: eviction at any size *)

Section EvictionMore.

(** X23. For a cache of any size with distinct keys, eviction keeps
    [min(size, 1000)] entries; the entries kept and the entries evicted
    make up the cache as it was; no evicted entry was stored later than a
    kept one; a cache within the limit is returned as it is; and evicting
    twice is evicting once. *)
Theorem evict_cache_at_any_size (c : list (str * CacheEntry)) :
  NoDup c.*1 →
  length (_evict_cache c) = length c `min` 1000 ∧
  (∃ evicted, c ≡ₚ _evict_cache c ++ evicted ∧
     ∀ kept old, kept ∈ _evict_cache c → old ∈ evicted →
                 (stamp old <= stamp kept)%Q) ∧
  (length c ≤ 1000 → _evict_cache c = c) ∧
  _evict_cache (_evict_cache c) = _evict_cache c.
Proof.
  intros Hnd. change 1000 with max_cache_size.
  destruct (decide (max_cache_size < length c)) as [Hover|Hunder].
  - rewrite evict_cache_over by done.
    pose proof (sorted_desc_perm stamp c) as Hperm.
    pose proof (sorted_desc_sorted stamp c) as Hsorted.
    set (l := sorted_desc stamp c) in *.
    assert (length l = length c) as Hl by (by rewrite Hperm).
    split; [rewrite length_take; lia|].
    split; [|split; [lia|]].
    + exists (drop max_cache_size l). split; [by rewrite take_drop|].
      intros kept old Hkept Hold.
      apply (desc_app stamp (take max_cache_size l) (drop max_cache_size l));
        [by rewrite take_drop|done|done].
    + apply evict_cache_under. rewrite length_take. lia.
  - rewrite !evict_cache_under by lia.
    split; [lia|]. split; [|done].
    exists []. split; [by rewrite app_nil_r|].
    intros kept old _ Hold. by apply elem_of_nil in Hold.
Qed.

End EvictionMore.

(** ** The orchestrator: the error of an exhausted search *)

Section SearchErrors.
Variable E : Env.

Lemma told_trans (query search_type : str) (w w1 w2 : World)
    (e e1 e2 : option exn) :
  told E query search_type w w1 e e1 → told E query search_type w1 w2 e1 e2 →
  told E query search_type w w2 e e2.
Proof.
  intros [[-> H1]|(Hs1 & Hm1 & p1 & Hp1)] [[-> H2]|(Hs2 & Hm2 & p2 & Hp2)].
  - left. split; [done|]. intros p. by rewrite H2.
  - right. split; [done|]. split.
    + intros p. specialize (Hm2 p). rewrite H1 in Hm2. done.
    + exists p2. by rewrite <- H1.
  - right. split; [done|]. split.
    + intros p. rewrite H2. apply Hm1.
    + exists p1. by rewrite H2.
  - right. split; [done|]. split.
    + intros p. specialize (Hm1 p). specialize (Hm2 p). lia.
    + exists p1. specialize (Hm2 p1). lia.
Qed.

(** What the dispatch raises is the [Unknown provider] exception or what
    an adapter raised. *)
Lemma search_with_provider_catchable (p query search_type : str) (e : exn)
    (w w' : World) :
  _search_with_provider E p query search_type w = (Raise e, w') →
  catchable E query search_type e.
Proof.
  unfold _search_with_provider, adapter_call, bind, emit, next_call, ret.
  destruct (decide (p = py "brave")) as [->|Hb].
  { simpl. intros [= H ?]. right; right. eexists. left. exact H. }
  destruct (decide (p = py "google")) as [->|Hg].
  { simpl. intros [= H ?]. right; right. eexists. right; left. exact H. }
  destruct (decide (p = py "duckduckgo")) as [->|Hd].
  { simpl. intros [= H ?]. right; right. eexists. right; right. exact H. }
  intros [= <- ?]. right; left. by exists p.
Qed.

Lemma on_error_told (query search_type p : str) (e : exn)
    (last_error : option exn) (w0 w : World) :
  catchable E query search_type e →
  (∀ q, error_count (self w) q = error_count (self w0) q) →
  told E query search_type w0 (on_error E p e w).2 last_error (Some e).
Proof.
  intros Hcatch Hsame. rewrite on_error_run. simpl. right.
  split; [by exists e|].
  pose proof (record_provider_error_frame E p w) as (_ & _ & _ & _ & _ & Hq & He).
  simpl in Hq, He. split.
  - intros q. rewrite <- Hsame. destruct (decide (q = p)) as [->|Hne]; [lia|].
    unfold error_count. by rewrite Hq.
  - exists p. rewrite <- Hsame. lia.
Qed.

Lemma try_provider_told (attempt : nat) (query search_type cache_key p : str)
    (last_error : option exn) (w : World) :
  match (try_provider E attempt query search_type cache_key p last_error w).1 with
  | Next last_error' =>
      told E query search_type w
           (try_provider E attempt query search_type cache_key p last_error w).2
           last_error last_error'
  | Done _ => True
  end.
Proof.
  destruct (try_provider E attempt query search_type cache_key p last_error w)
    as [res w'] eqn:Hrun.
  simpl. revert Hrun. unfold try_provider, bind at 1.
  pose proof (check_rate_limit_frame E p w) as (Hs0 & _).
  destruct (_check_rate_limit E p w) as [granted w1]. simpl in Hs0.
  assert (∀ q, error_count (self w1) q = error_count (self w) q) as Hsame.
  { intros q. unfold error_count. by rewrite Hs0. }
  destruct granted; simpl; [|unfold ret; intros [= <- <-]; by left].
  destruct (decide (0 < attempt)).
  { rewrite backoff_raises. unfold bind at 1. unfold ret at 1.
    pose proof (on_error_told query search_type p unused_argument last_error
                  w w1 (or_introl eq_refl) Hsame) as Htold.
    rewrite on_error_run in *. by intros [= <- <-]. }
  unfold bind at 1. unfold ret at 1. unfold bind at 1.
  pose proof (search_with_provider_frame E p query search_type w1) as Hself.
  destruct (_search_with_provider E p query search_type w1) as [[results|e] w2]
    eqn:Hdispatch; simpl in Hself.
  - destruct results as [|item results].
    { unfold ret. intros [= <- <-]. left. split; [done|].
      intros q. by rewrite Hself. }
    unfold bind. destruct (store_result _ _ _ _ _ _) as [[] w3].
    unfold ret. by intros [= <- <-].
  - assert (∀ q, error_count (self w2) q = error_count (self w) q) as Hsame2.
    { intros q. by rewrite Hself. }
    pose proof (on_error_told query search_type p e last_error w w2
                  (search_with_provider_catchable _ _ _ _ _ _ Hdispatch) Hsame2)
      as Htold.
    rewrite on_error_run in *. by intros [= <- <-].
Qed.

Lemma for_providers_told (attempt : nat) (query search_type cache_key : str)
    (providers : list str) (last_error : option exn) (w : World) :
  match (for_providers E attempt query search_type cache_key providers
           last_error w).1 with
  | Next last_error' =>
      told E query search_type w
           (for_providers E attempt query search_type cache_key providers
              last_error w).2 last_error last_error'
  | Done _ => True
  end.
Proof.
  revert last_error w. induction providers as [|p rest IH]; intros last_error w.
  - simpl. by left.
  - simpl for_providers. unfold bind.
    pose proof (try_provider_told attempt query search_type cache_key p
                  last_error w) as H1.
    destruct (try_provider E attempt query search_type cache_key p last_error w)
      as [[e|res] w1]; simpl in H1; [|done].
    specialize (IH e w1).
    destruct (for_providers E attempt query search_type cache_key rest e w1)
      as [[e'|res] w2]; simpl in *; [|done].
    by eapply told_trans.
Qed.

Lemma for_attempts_told (attempts : list nat) (query search_type cache_key : str)
    (providers : list str) (last_error : option exn) (w : World) :
  match (for_attempts E attempts query search_type cache_key providers
           last_error w).1 with
  | Next last_error' =>
      told E query search_type w
           (for_attempts E attempts query search_type cache_key providers
              last_error w).2 last_error last_error'
  | Done _ => True
  end.
Proof.
  revert last_error w. induction attempts as [|attempt rest IH]; intros last_error w.
  - simpl. by left.
  - simpl for_attempts. unfold bind.
    pose proof (for_providers_told attempt query search_type cache_key providers
                  last_error w) as H1.
    destruct (for_providers E attempt query search_type cache_key providers
                last_error w) as [[e|res] w1]; simpl in H1; [|done].
    specialize (IH e w1).
    destruct (for_attempts E rest query search_type cache_key providers e w1)
      as [[e'|res] w2]; simpl in *; [|done].
    by eapply told_trans.
Qed.

(** X24. What the error of an exhausted search tells.  Either the search
    recorded no error at all, every error count is as it was, and the
    error is the text [None]; or the error is the message of an exception
    the search can catch for its sanitized query, namely the [TypeError]
    of the backoff computation, the [Unknown provider] exception of the
    dispatch or an exception raised by one of the three adapters, and the
    error count of some provider went up. *)
Theorem exhausted_error_tells (query search_type : str)
    (provider : option str) (w : World) (error q : str)
    (results : list ResultItem) :
  (search E query search_type provider w).1 = Exhausted error q results →
  let w' := (search E query search_type provider w).2 in
  (error = py "None" ∧
   ∀ p, error_count (self w') p = error_count (self w) p) ∨
  ((∃ e, catchable E (_sanitize_query query) search_type e ∧
         error = exn_msg e) ∧
   ∃ p, error_count (self w) p < error_count (self w') p).
Proof.
  destruct (search E query search_type provider w) as [res w'] eqn:Hrun.
  simpl. intros ->. revert Hrun. unfold search.
  set (sq := _sanitize_query query). set (key := _get_cache_key E sq search_type).
  destruct (str_falsy sq); [unfold ret; by intros [= <-]|].
  unfold bind at 1.
  pose proof (cache_lookup_steady E key sq w) as Hs0.
  assert (self (cache_lookup E key sq w).2 = self w) as Hself0.
  { unfold cache_lookup, bind, emit, get_self, _is_cache_valid, bind, time_time, ret.
    simpl. by destruct (dict_get key (cache (self w))). }
  destruct (cache_lookup E key sq w) as [[cached|] w1]; simpl in Hself0;
    [unfold ret; by intros [= <-]|].
  unfold bind at 1.
  assert (∃ providers w2,
            match provider with
            | Some p => if str_falsy p then _get_provider_order E else ret [p]
            | None => _get_provider_order E
            end w1 = (providers, w2) ∧
            ∀ p, error_count (self w2) p = error_count (self w1) p)
    as (providers & w2 & -> & Hsame2).
  { assert (∃ ps w2, _get_provider_order E w1 = (ps, w2) ∧
              ∀ p, error_count (self w2) p = error_count (self w1) p)
      as (ps & w2 & Hord & Hc).
    { unfold _get_provider_order, fallback, bind. simpl healthy_fallbacks.
      unfold bind, ret.
      pose proof (is_provider_healthy_frame E (py "google") w1)
        as (_ & _ & _ & _ & _ & _ & He1).
      destruct (_is_provider_healthy E (py "google") w1) as [ok1 wa].
      pose proof (is_provider_healthy_frame E (py "duckduckgo") wa)
        as (_ & _ & _ & _ & _ & _ & He2).
      destruct (_is_provider_healthy E (py "duckduckgo") wa) as [ok2 wb].
      simpl in *. eexists _, _. split; [done|].
      intros p. by rewrite He2, He1. }
    destruct provider as [p|]; [destruct (str_falsy p)|]; unfold ret; eauto. }
  unfold bind at 1.
  pose proof (for_attempts_told (seq 0 3) sq search_type key providers None w2)
    as Htold.
  pose proof (for_attempts_effect E (seq 0 3) sq search_type key providers None w2)
    as [_ Hf].
  destruct (for_attempts E (seq 0 3) sq search_type key providers None w2)
    as [[e|r] w3]; simpl in Htold, Hf; unfold ret.
  - intros [= <- <- <- <-].
    destruct Htold as [[-> Hsame]|((err & -> & Hcatch) & _ & p & Hp)].
    + left. split; [done|]. intros p. by rewrite Hsame, Hsame2, Hself0.
    + right. split; [by exists err|]. exists p.
      by rewrite Hsame2, Hself0 in Hp.
  - destruct Hf as (rs & p & now & -> & _). by intros [= <-].
Qed.

End SearchErrors.

Lemma unknown_provider_exhausts_witness :
  (search failing_env (py "x") (py "web") (Some (py "bing")) (world_of fresh)).1
  = Exhausted (exn_msg unused_argument) (py "x") [] ∧
  error_count
    (self (search failing_env (py "x") (py "web") (Some (py "bing"))
             (world_of fresh)).2) (py "bing") = 0 + 3 ∧
  calls (search failing_env (py "x") (py "web") (Some (py "bing"))
           (world_of fresh)).2 = 0.
Proof.
  apply (unknown_provider_exhausts failing_env (py "x") (py "web") (py "bing")
           (world_of fresh)); try reflexivity.
  apply (bool_decide_unpack (py "bing" ∉ adapter_names)). by vm_compute.
Defined.

Lemma search_calls_adapters_once_witness :
  (calls (for_providers empty_env 1 (py "x") (py "web") (py "k") [py "brave"]
            None (world_of fresh)).2 = 0 ∧
   filter is_adapter_call
     (trace (for_providers empty_env 1 (py "x") (py "web") (py "k") [py "brave"]
               None (world_of fresh)).2) = []) ∧
  calls (for_attempts empty_env (seq 0 3) (py "x") (py "web") (py "k")
           [py "brave"] None (world_of fresh)).2
  = calls (for_providers empty_env 0 (py "x") (py "web") (py "k") [py "brave"]
             None (world_of fresh)).2 ∧
  calls empty_run.2 ≤ 0 + 1.
Proof.
  destruct (search_calls_adapters_once empty_env (py "x") (py "web")
              (Some (py "brave")) (world_of fresh)) as (Hlater & Hfirst & _ & Hone).
  split; [apply (Hlater 1 (py "x") (py "k") [py "brave"] None (world_of fresh));
          lia|].
  split; [apply (Hfirst (py "x") (py "k") [py "brave"] None (world_of fresh))|].
  exact (Hone (py "brave") eq_refl eq_refl).
Defined.

Lemma exhausted_error_tells_witness :
  (exn_msg unused_argument = py "None" ∧
   ∀ p, error_count (self empty_run.2) p = error_count fresh p) ∨
  ((∃ e, catchable empty_env (py "x") (py "web") e ∧
         exn_msg unused_argument = exn_msg e) ∧
   ∃ p, error_count fresh p < error_count (self empty_run.2) p).
Proof.
  apply (exhausted_error_tells empty_env (py "x") (py "web") (Some (py "brave"))
           (world_of fresh) (exn_msg unused_argument) (py "x") []).
  by vm_compute.
Defined.

Lemma evict_cache_at_any_size_witness :
  length (_evict_cache (cache_of_size 1003)) = 1003 `min` 1000.
Proof.
  destruct (evict_cache_at_any_size (cache_of_size 1003)) as [Hlen _].
  - apply cache_of_size_keys.
  - by rewrite cache_of_size_length in Hlen.
Defined.

